(** * pyConf: a shallow embedding of [pyconfig.py]

    The module defines [identifier], the key normaliser, and the class
    [Config], a [dict] subclass whose fields can be read as items and as
    attributes, which merges values with defaults and validates itself
    against a template of checks.  Python objects are embedded as a small
    universe of values, dictionaries as insertion-ordered association lists,
    in-place mutation as explicit state passing, and exceptions as results
    that still carry the state reached when they were raised. *)

From Stdlib Require Import String Ascii ZArith List Bool Lia DecimalString Permutation.
Import ListNotations.
Open Scope string_scope.
Open Scope list_scope.

#[local] Set Warnings "-register-all".

(** ** Text helpers *)

Module Text.

(** [string.punctuation]; the double quote is given by its code. *)
Definition punctuation : list ascii :=
  list_ascii_of_string "!" ++ [ascii_of_nat 34] ++
  list_ascii_of_string "#$%&'()*+,-./:;<=>?@[\]^_`{|}~".

(** [string.whitespace]: space, tab, line feed, carriage return, vertical
    tab, form feed. *)
Definition whitespace : list ascii :=
  map ascii_of_nat [32; 9; 10; 13; 11; 12]%nat.

Definition mem (c : ascii) (l : list ascii) : bool :=
  existsb (Ascii.eqb c) l.

(** [trans_table = maketrans(punctuation + whitespace, '_' * n)], applied to
    one character. *)
Definition trans_table (c : ascii) : ascii :=
  if mem c (punctuation ++ whitespace) then "_"%char else c.

(** [s.translate(trans_table)] *)
Fixpoint translate (s : string) : string :=
  match s with
  | EmptyString => EmptyString
  | String c s' => String (trans_table c) (translate s')
  end.

(** [c.isdigit()] on the characters of a byte string. *)
Definition isdigit (c : ascii) : bool :=
  let n := nat_of_ascii c in (48 <=? n)%nat && (n <=? 57)%nat.

(** [str(z)] for an integer. *)
Definition str_of_Z (z : Z) : string := NilZero.string_of_int (Z.to_int z).

End Text.

(** ** Keys *)

(** A dictionary key: text, an integer, or something else ([None] stands
    for the keys that are neither). *)
Inductive key : Type :=
| KStr (s : string)
| KInt (z : Z)
| KNone.

Definition key_eqb (a b : key) : bool :=
  match a, b with
  | KStr s, KStr t => String.eqb s t
  | KInt x, KInt y => Z.eqb x y
  | KNone, KNone => true
  | _, _ => false
  end.

(** [isinstance(k, (str, int))] *)
Definition is_str_or_int (k : key) : bool :=
  match k with
  | KStr _ | KInt _ => true
  | KNone => false
  end.

(** [str(k)] *)
Definition str (k : key) : string :=
  match k with
  | KStr s => s
  | KInt z => Text.str_of_Z z
  | KNone => "None"
  end.

(** [identifier(name)]: a valid identifier for a key.  [name[0]] is read
    after the empty text has been dealt with; [str] of another key is never
    empty (see [str_nonempty]). *)
Definition identifier (name : key) : string :=
  if key_eqb name (KStr "") then "_"
  else
    let name := str name in
    let name :=
      match name with
      | String c _ => if Text.isdigit c then String "_" name else name
      | EmptyString => name
      end in
    Text.translate name.

(** ** Values *)

(** The scalars stored in a configuration and compared by literal checks. *)
Inductive scalar : Type :=
| SNone
| SBool (b : bool)
| SInt (z : Z)
| SStr (s : string).

(** Python objects.  A [VDict] is a plain [dict], a [VConfig] an instance of
    [Config]: its [items] are the dictionary it is, its [attrs] the ordinary
    instance attributes it carries besides.  A dictionary is the list of its
    items in insertion order.  [VClassObj name] is what ordinary attribute
    lookup finds on the class under [name] (a bound method, as a rule). *)
Inductive value : Type :=
| VScalar (s : scalar)
| VClassObj (name : string)
| VDict (items : list (key * value))
| VConfig (attrs : list (key * value)) (items : list (key * value)).

Definition dict : Type := list (key * value).

Definition VNone : value := VScalar SNone.
Definition VStr (s : string) : value := VScalar (SStr s).
Definition VInt (z : Z) : value := VScalar (SInt z).
Definition VBool (b : bool) : value := VScalar (SBool b).

(** Exceptions, by their Python class.  [OperandError] is the [TypeError]
    an operator raises on operands it does not support; [Other] is any
    exception of another class a user callable may raise. *)
Inductive exn : Type :=
| KeyError (k : key)
| AttributeError (name : string)
| TypeError (k : key)
| OperandError
| Other (tag : string).

Inductive outcome (A : Type) : Type :=
| Ok (a : A)
| Raise (e : exn).
Arguments Ok {A} a.
Arguments Raise {A} e.

Definition bind {A B : Type} (m : outcome A) (f : A -> outcome B) : outcome B :=
  match m with
  | Ok a => f a
  | Raise e => Raise e
  end.

Declare Scope py_scope.
Delimit Scope py_scope with py.
Notation "x <- m ;; k" := (bind m (fun x => k))
  (at level 61, m at next level, right associativity) : py_scope.
Open Scope py_scope.

(** ** The built-in dictionary *)

Module Dict.

(** [dict.get(k)], [None] when [k] is absent. *)
Fixpoint get (k : key) (d : dict) : option value :=
  match d with
  | [] => None
  | (k', v) :: d' => if key_eqb k k' then Some v else get k d'
  end.

(** [k in d] *)
Definition contains (k : key) (d : dict) : bool :=
  match get k d with
  | Some _ => true
  | None => false
  end.

(** [d[k] = v]: an existing key keeps its place, a new one goes last. *)
Fixpoint set (k : key) (v : value) (d : dict) : dict :=
  match d with
  | [] => [(k, v)]
  | (k', v') :: d' =>
      if key_eqb k k' then (k', v) :: d' else (k', v') :: set k v d'
  end.

Definition keys (d : dict) : list key := map fst d.

End Dict.

(** [isinstance(v, dict)], with the items of [v] *)
Definition items_of (v : value) : option dict :=
  match v with
  | VDict d | VConfig _ d => Some d
  | _ => None
  end.

Definition is_dict (v : value) : bool :=
  match items_of v with
  | Some _ => true
  | None => false
  end.

(** [isinstance(v, Config)] *)
Definition is_config (v : value) : bool :=
  match v with
  | VConfig _ _ => true
  | _ => false
  end.

(** [v.get(k, default)], the built-in [dict.get]: it looks [k] up as it is. *)
Definition dict_get_method (v : value) (k : key) (default : value) : outcome value :=
  match items_of v with
  | Some d =>
      match Dict.get k d with
      | Some x => Ok x
      | None => Ok default
      end
  | None => Raise (AttributeError "get")
  end.

(** [a + b]: concatenation of texts, addition of numbers. *)
Definition py_add (a b : value) : outcome value :=
  match a, b with
  | VScalar (SStr s), VScalar (SStr t) => Ok (VStr (s ++ t))
  | VScalar (SInt x), VScalar (SInt y) => Ok (VInt (x + y))
  | VScalar (SInt x), VScalar (SBool y) => Ok (VInt (x + Z.b2z y))
  | VScalar (SBool x), VScalar (SInt y) => Ok (VInt (Z.b2z x + y))
  | VScalar (SBool x), VScalar (SBool y) => Ok (VInt (Z.b2z x + Z.b2z y))
  | _, _ => Raise OperandError
  end.

(** ** The class [Config] *)

Module Config.

(** The class attribute [general_errors]. *)
Definition general_errors : dict :=
  [ (KStr "prefix", VStr "{path}.{name} ");
    (KStr "invalid", VStr "is invalid");
    (KStr "missing", VStr "is missing");
    (KStr "suffix", VStr ".") ].

(** The methods [Config] defines. *)
Definition own_methods : list string :=
  [ "__init__"; "__getitem__"; "__getattr__"; "__setattr__"; "update";
    "set_defaults"; "on_error"; "follows_template"; "_check";
    "_get_error_msg"; "_prepare_error_msgs"; "_follows_template" ].

(** The attributes it inherits from [dict] and [object], or receives as a
    class (Python 3). *)
Definition inherited : list string :=
  [ "clear"; "copy"; "fromkeys"; "get"; "items"; "keys"; "pop"; "popitem";
    "setdefault"; "values";
    "__class__"; "__class_getitem__"; "__contains__"; "__delattr__";
    "__delitem__"; "__dict__"; "__dir__"; "__doc__"; "__eq__"; "__format__";
    "__ge__"; "__getattribute__"; "__getstate__"; "__gt__"; "__hash__";
    "__init_subclass__"; "__ior__"; "__iter__"; "__le__"; "__len__";
    "__lt__"; "__module__"; "__ne__"; "__new__"; "__or__"; "__reduce__";
    "__reduce_ex__"; "__repr__"; "__reversed__"; "__ror__"; "__setitem__";
    "__sizeof__"; "__str__"; "__subclasshook__"; "__weakref__" ].

(** What ordinary lookup finds on the class under [name], if anything. *)
Definition class_attr (name : string) : option value :=
  if String.eqb name "general_errors" then Some (VDict general_errors)
  else if existsb (String.eqb name) (own_methods ++ inherited)
       then Some (VClassObj name)
       else None.

(** [self[key]]: the key as it is, then its identifier. *)
Definition __getitem__ (self : dict) (key : key) : outcome value :=
  match Dict.get key self with
  | Some v => Ok v
  | None =>
      match Dict.get (KStr (identifier key)) self with
      | Some v => Ok v
      | None => Raise (KeyError key)
      end
  end.

(** [__getattr__(self, attr)], which Python calls when ordinary lookup found
    no attribute [attr]. *)
Definition __getattr__ (self : dict) (attr : string) : outcome value :=
  match __getitem__ self (KStr attr) with
  | Ok v => Ok v
  | Raise (KeyError _) => Raise (AttributeError attr)
  | Raise e => Raise e
  end.

(** [getattr(obj, name)]: the instance attributes, then the class, then
    [__getattr__].  Only the attributes of a [Config] are modelled. *)
Definition getattr (obj : value) (name : string) : outcome value :=
  match obj with
  | VConfig attrs items =>
      match Dict.get (KStr name) attrs with
      | Some v => Ok v
      | None =>
          match class_attr name with
          | Some v => Ok v
          | None => __getattr__ items name
          end
      end
  | _ => Raise (AttributeError name)
  end.

(** [__setattr__(self, attr, value)]: an item that exists is overwritten,
    any other name becomes an ordinary instance attribute. *)
Definition __setattr__ (self : value) (attr : string) (v : value) : value :=
  match self with
  | VConfig attrs items =>
      if Dict.contains (KStr attr) items
      then VConfig attrs (Dict.set (KStr attr) v items)
      else VConfig (Dict.set (KStr attr) v attrs) items
  | _ => self
  end.

(** The loop of [update] over the items of [values]; [mk] is the
    constructor [Config(v)] applied to a nested dictionary.  The result is
    the dictionary reached, with the exception that stopped the loop. *)
Section UpdateLoop.
Variable mk : value -> outcome value.

Fixpoint update_loop (values : dict) (self : dict) : dict * option exn :=
  match values with
  | [] => (self, None)
  | (k, v) :: rest =>
      if is_str_or_int k then
        if is_dict v then
          match mk v with
          | Ok c => update_loop rest (Dict.set (KStr (identifier k)) c self)
          | Raise e => (self, Some e)
          end
        else update_loop rest (Dict.set (KStr (identifier k)) v self)
      else (self, Some (TypeError k))
  end.
End UpdateLoop.

(** [Config(values)]: [update(values)] on a new object; [set_defaults({})]
    then has no item to go through. *)
Fixpoint build (values : value) : outcome value :=
  match values with
  | VDict l | VConfig _ l =>
      match update_loop build l [] with
      | (d, None) => Ok (VConfig [] d)
      | (_, Some e) => Raise e
      end
  | _ => Raise (AttributeError "items")
  end.

(** [self.update(values)] on the items of [self]. *)
Definition update_items (self : dict) (values : value) : dict * option exn :=
  match items_of values with
  | Some l => update_loop build l self
  | None => (self, Some (AttributeError "items"))
  end.

(** The loop of [set_defaults]; [rec] is [set_defaults] itself, called on a
    nested [Config] with the nested defaults. *)
Section DefaultsLoop.
Variable rec : value -> dict -> dict * option exn.

Fixpoint set_defaults_loop (defaults : dict) (self : dict) : dict * option exn :=
  match defaults with
  | [] => (self, None)
  | (k, v) :: rest =>
      if is_str_or_int k then
        let k := KStr (identifier k) in
        if is_dict v then
          if negb (Dict.contains k self) then
            match build v with
            | Raise e => (self, Some e)
            | Ok c =>
                match update_items self (VDict [(k, c)]) with
                | (self', None) => set_defaults_loop rest self'
                | (self', Some e) => (self', Some e)
                end
            end
          else
            match __getitem__ self k with
            | Raise e => (self, Some e)
            | Ok (VConfig a d) =>
                match rec v d with
                | (d', None) =>
                    set_defaults_loop rest (Dict.set k (VConfig a d') self)
                | (d', Some e) => (Dict.set k (VConfig a d') self, Some e)
                end
            | Ok _ => (self, Some (AttributeError "set_defaults"))
            end
        else if negb (Dict.contains k self) then
          match update_items self (VDict [(k, v)]) with
          | (self', None) => set_defaults_loop rest self'
          | (self', Some e) => (self', Some e)
          end
        else set_defaults_loop rest self
      else (self, Some (TypeError k))
  end.
End DefaultsLoop.

(** [self.set_defaults(defaults)] on the items of [self]. *)
Fixpoint set_defaults_items (defaults : value) (self : dict) : dict * option exn :=
  match defaults with
  | VDict l | VConfig _ l => set_defaults_loop set_defaults_items l self
  | _ => (self, Some (AttributeError "items"))
  end.

(** The two methods on an object. *)
Definition update (self values : value) : value * option exn :=
  match self with
  | VConfig a d => let (d', e) := update_items d values in (VConfig a d', e)
  | _ => (self, Some (AttributeError "update"))
  end.

Definition set_defaults (self defaults : value) : value * option exn :=
  match self with
  | VConfig a d => let (d', e) := set_defaults_items defaults d in (VConfig a d', e)
  | _ => (self, Some (AttributeError "set_defaults"))
  end.

(** [Config(values, defaults)] *)
Definition __init__ (values defaults : value) : outcome value :=
  match update (VConfig [] []) values with
  | (_, Some e) => Raise e
  | (self, None) =>
      match set_defaults self defaults with
      | (_, Some e) => Raise e
      | (self', None) => Ok self'
      end
  end.

End Config.

(** ** Checks *)

(** The types a check may name. *)
Inductive pytype : Type :=
| TObject
| TNoneType
| TBool
| TInt
| TStr
| TDict
| TConfig.

(** [isinstance(v, t)]; [bool] is a subclass of [int], [Config] of [dict]. *)
Definition isinstance (v : value) (t : pytype) : bool :=
  match t, v with
  | TObject, _ => true
  | TNoneType, VScalar SNone => true
  | TBool, VScalar (SBool _) => true
  | TInt, VScalar (SInt _) => true
  | TInt, VScalar (SBool _) => true
  | TStr, VScalar (SStr _) => true
  | TDict, VDict _ => true
  | TDict, VConfig _ _ => true
  | TConfig, VConfig _ _ => true
  | _, _ => false
  end.

(** [a == b] on scalars; a boolean equals the integer it is. *)
Definition scalar_eqb (a b : scalar) : bool :=
  match a, b with
  | SNone, SNone => true
  | SBool x, SBool y => Bool.eqb x y
  | SBool x, SInt y => Z.eqb (Z.b2z x) y
  | SInt x, SBool y => Z.eqb x (Z.b2z y)
  | SInt x, SInt y => Z.eqb x y
  | SStr s, SStr t => String.eqb s t
  | _, _ => false
  end.

(** [attr == check] for a literal check, which is a scalar. *)
Definition value_eq_scalar (attr : value) (s : scalar) : bool :=
  match attr with
  | VScalar a => scalar_eqb a s
  | _ => false
  end.

(** A callable of a tuple check, called as [func(attr, *args, **kwargs)]. *)
Definition pyfunc : Type := value -> list value -> dict -> outcome bool.

(** The second element of a tuple check: a list of arguments, or a
    dictionary. *)
Inductive tuple_args : Type :=
| ArgList (l : list value)
| ArgDict (d : dict).

(** A tuple check, by its length. *)
Inductive tuple_check : Type :=
| Tup0
| Tup1 (func : pyfunc)
| Tup2 (func : pyfunc) (args : tuple_args)
| Tup3 (func : pyfunc) (args : tuple_args) (kwargs : dict).

(** A check: a list, a set (in the order it is iterated), a type, a
    callable, a tuple, or a literal. *)
Inductive check : Type :=
| CList (cs : list check)
| CSet (cs : list check)
| CType (t : pytype)
| CCallable (f : value -> outcome bool)
| CTuple (t : tuple_check)
| CValue (s : scalar).

(** A template maps field names to checks and to nested templates. *)
Inductive template : Type :=
| TCheck (c : check)
| TNested (fields : list (key * template)).

Definition value_of_key (k : key) : value :=
  match k with
  | KStr s => VStr s
  | KInt z => VInt z
  | KNone => VNone
  end.

(** The ambient information a report is formatted with. *)
Record formatting_info : Type := mkInfo {
  fi_missing : bool;
  fi_name : option key;
  fi_path : string;
  fi_value : value
}.

(** One call of the reporting hook: the message and its keyword
    arguments. *)
Definition report : Type := (string * formatting_info)%type.

Module Validate.

Import Config.

(** The loops of [_check] over a list and over a set. *)
Section CheckLoops.
Variable rec : check -> outcome bool.

Fixpoint any_loop (cs : list check) : outcome bool :=
  match cs with
  | [] => Ok false
  | c :: cs' =>
      match rec c with
      | Ok true => Ok true
      | Ok false => any_loop cs'
      | Raise e => Raise e
      end
  end.

Fixpoint all_loop (cs : list check) : outcome bool :=
  match cs with
  | [] => Ok true
  | c :: cs' =>
      match rec c with
      | Ok false => Ok false
      | Ok true => all_loop cs'
      | Raise e => Raise e
      end
  end.
End CheckLoops.

(** The tuple branch of [_check]. *)
Definition check_tuple (attr : value) (t : tuple_check) : outcome bool :=
  let func : pyfunc :=
    match t with
    | Tup0 => fun _ _ _ => Ok false
    | Tup1 f | Tup2 f _ | Tup3 f _ _ => f
    end in
  let args :=
    match t with
    | Tup0 | Tup1 _ => ArgList []
    | Tup2 _ a | Tup3 _ a _ => a
    end in
  let kwargs :=
    match t with
    | Tup3 _ _ k => k
    | _ => []
    end in
  match kwargs, args with
  | [], ArgDict d => func attr [] d
  | _, ArgList l => func attr l kwargs
  | _, ArgDict d => func attr (map value_of_key (Dict.keys d)) kwargs
  end.

(** [_check(attr, check)] *)
Fixpoint _check (attr : value) (c : check) : outcome bool :=
  match c with
  | CList cs => any_loop (_check attr) cs
  | CSet cs => all_loop (_check attr) cs
  | CType t => Ok (isinstance attr t)
  | CCallable f => f attr
  | CTuple t => check_tuple attr t
  | CValue s => Ok (value_eq_scalar attr s)
  end.

(** [_get_error_msg(attr_name, error_msgs, missing)] *)
Definition _get_error_msg (attr_name : key) (error_msgs : value) (missing : bool)
  : outcome value :=
  let situation := KStr (if missing then "missing" else "invalid") in
  g <- getattr error_msgs "_" ;;
  default <- dict_get_method g situation VNone ;;
  error <- dict_get_method error_msgs attr_name default ;;
  if is_config error then
    g1 <- getattr error_msgs "_" ;;
    p <- getattr g1 "prefix" ;;
    a <- dict_get_method error (KStr "prefix") p ;;
    b <- dict_get_method error situation default ;;
    ab <- py_add a b ;;
    g2 <- getattr error_msgs "_" ;;
    s <- getattr g2 "suffix" ;;
    c <- dict_get_method error (KStr "suffix") s ;;
    py_add ab c
  else
    g1 <- getattr error_msgs "_" ;;
    p <- getattr g1 "prefix" ;;
    pe <- py_add p error ;;
    g2 <- getattr error_msgs "_" ;;
    s <- getattr g2 "suffix" ;;
    py_add pe s.

(** [_prepare_error_msgs(error_msgs, defaults)] *)
Definition _prepare_error_msgs (self error_msgs defaults : value) : outcome value :=
  error_msgs <-
    match error_msgs with
    | VScalar (SStr _) =>
        __init__ (VDict [(KStr "_", VDict [(KStr "invalid", error_msgs)])]) (VDict [])
    | _ => Ok error_msgs
    end ;;
  ge <- getattr self "general_errors" ;;
  inner <- __init__ defaults (VDict [(KStr "_", ge)]) ;;
  __init__ error_msgs inner.

(** [on_error(error, **kwargs)]: the report is the message with the
    arguments [error.format] receives; formatting and printing are left to
    the reader of the report. *)
Definition on_error (error : value) (kwargs : formatting_info) (log : list report)
  : outcome (list report) :=
  match error with
  | VScalar (SStr s) => Ok (log ++ [(s, kwargs)])
  | _ => Raise (AttributeError "format")
  end.

Definition set_name (info : formatting_info) (name : key) : formatting_info :=
  {| fi_missing := fi_missing info; fi_name := Some name;
     fi_path := fi_path info; fi_value := fi_value info |}.

(** [formatting_info.update({'missing': False, 'value': attr})] *)
Definition set_invalid (info : formatting_info) (attr : value) : formatting_info :=
  {| fi_missing := false; fi_name := fi_name info;
     fi_path := fi_path info; fi_value := attr |}.

(** [(path + '.' if path else '') + str(attr_name)] *)
Definition child_path (path : string) (attr_name : key) : string :=
  (match path with
   | EmptyString => ""
   | _ => path ++ "."
   end) ++ str attr_name.

(** The loop of [_follows_template] over the fields of the template.  The
    dictionary [formatting_info] lives across the iterations, so it is part
    of the loop state with [res] and the reports made so far; [rec] is
    [_follows_template] itself, called on a nested [Config]. *)
Section TemplateLoop.
Variable rec :
  template -> value -> value -> string -> list report -> list report * outcome bool.
Variables (self error_msgs : value) (path : string).

Fixpoint template_loop (fields : list (key * template)) (res : bool)
    (info : formatting_info) (log : list report) : list report * outcome bool :=
  match fields with
  | [] => (log, Ok res)
  | (attr_name, check) :: rest =>
      let info := set_name info attr_name in
      let report_missing :=
        match (m <- _get_error_msg attr_name error_msgs true ;;
               on_error m info log) with
        | Ok log' => template_loop rest false info log'
        | Raise e => (log, Raise e)
        end in
      match getattr self (identifier attr_name) with
      | Raise (AttributeError _) => report_missing
      | Raise e => (log, Raise e)
      | Ok attr =>
          match check with
          | TNested _ =>
              if negb (is_config attr) then report_missing
              else
                match (sub <- dict_get_method error_msgs attr_name (VDict []) ;;
                       g <- getattr error_msgs "_" ;;
                       _prepare_error_msgs self sub (VDict [(KStr "_", g)])) with
                | Raise e => (log, Raise e)
                | Ok msgs =>
                    match rec check attr msgs (child_path path attr_name) log with
                    | (log', Ok true) => template_loop rest res info log'
                    | (log', Ok false) => template_loop rest false info log'
                    | (log', Raise e) => (log', Raise e)
                    end
                end
          | TCheck c =>
              match _check attr c with
              | Raise e => (log, Raise e)
              | Ok true => template_loop rest res info log
              | Ok false =>
                  let info := set_invalid info attr in
                  match (m <- _get_error_msg attr_name error_msgs false ;;
                         on_error m info log) with
                  | Ok log' => template_loop rest false info log'
                  | Raise e => (log, Raise e)
                  end
              end
          end
      end
  end.
End TemplateLoop.

Definition initial_info (path : string) : formatting_info :=
  {| fi_missing := true; fi_name := None; fi_path := path; fi_value := VNone |}.

(** [self._follows_template(template, error_msgs, path)], with the reports
    made before the call; it returns the reports and the result. *)
Fixpoint _follows_template (t : template) (self error_msgs : value) (path : string)
    (log : list report) : list report * outcome bool :=
  match t with
  | TNested fields =>
      template_loop _follows_template self error_msgs path fields true
        (initial_info path) log
  | TCheck _ => (log, Raise (AttributeError "items"))
  end.

(** [self.follows_template(template, error_msgs)] *)
Definition follows_template (self : value) (t : template) (error_msgs : value)
  : list report * outcome bool :=
  match _prepare_error_msgs self error_msgs (VDict []) with
  | Raise e => ([], Raise e)
  | Ok msgs => _follows_template t self msgs "" []
  end.

End Validate.

(** * Vocabulary of the properties *)

(** An identifier is not empty, does not start with a digit, and is left
    alone by the translation table. *)
Definition normal (s : string) : Prop :=
  match s with
  | EmptyString => False
  | String c _ => Text.isdigit c = false
  end /\ Text.translate s = s.

(** The value a merge stores for [v]: a nested [Config] built from a
    dictionary, any other value as it is. *)
Definition stored (v : value) : outcome value :=
  if is_dict v then Config.build v else Ok v.

(** Every key of a dictionary is an identifier. *)
Definition normal_keys (d : dict) : Prop :=
  Forall (fun kv => exists s, fst kv = KStr s /\ normal s) d.

(** The name is not shadowed by an attribute the object has of its own. *)
Definition free_name (attrs : dict) (name : string) : Prop :=
  Dict.get (KStr name) attrs = None /\ Config.class_attr name = None.

(** [extends v v']: [v'] is [v] with fields filled in.  A value that is not
    a [Config] is unchanged; a [Config] keeps its instance attributes, and
    every item it has is still there, unchanged or extended in turn. *)
Inductive extends : value -> value -> Prop :=
| extends_same (v : value) : is_config v = false -> extends v v
| extends_config (a d d' : dict) :
    (forall k x, Dict.get k d = Some x ->
                 exists x', Dict.get k d' = Some x' /\ extends x x') ->
    extends (VConfig a d) (VConfig a d').

Definition extends_items (d d' : dict) : Prop :=
  forall k x, Dict.get k d = Some x ->
              exists x', Dict.get k d' = Some x' /\ extends x x'.

(** The error messages every validation starts from when none are given:
    the general errors of the class under [_]. *)
Definition default_msgs : value :=
  VConfig [] [(KStr "_", VConfig [] Config.general_errors)].

(** The field names a dictionary of values or defaults gives rise to. *)
Definition names (l : dict) : list string :=
  map (fun kv => identifier (fst kv)) l.

Fixpoint nodupb (l : list string) : bool :=
  match l with
  | [] => true
  | x :: l' => negb (existsb (String.eqb x) l') && nodupb l'
  end.

(** No two keys of one dictionary normalise to the same name, at any
    depth. *)
Fixpoint distinct_names (v : value) : bool :=
  match v with
  | VDict l | VConfig _ l =>
      nodupb (names l)
      && (fix all (l : dict) : bool :=
            match l with
            | [] => true
            | kv :: l' => distinct_names (snd kv) && all l'
            end) l
  | _ => true
  end.

(** A dictionary as [update] leaves it when it starts from nothing: each
    key once, every key an identifier, every value stored as itself. *)
Definition canonical_items (d : dict) : Prop :=
  NoDup (Dict.keys d)
  /\ normal_keys d
  /\ Forall (fun kv => stored (snd kv) = Ok (snd kv)) d.

(** The item [(k, x)] of the defaults has nothing left to fill in [d]. *)
Definition covered (rec : value -> dict -> dict * option exn) (d : dict)
    (kx : key * value) : Prop :=
  is_str_or_int (fst kx) = true
  /\ exists y,
       Dict.get (KStr (identifier (fst kx))) d = Some y
       /\ (is_dict (snd kx) = true ->
           exists a dn, y = VConfig a dn /\ rec (snd kx) dn = (dn, None)).

(** ** Vocabulary of the validation theorem *)





(** A store without instance attributes, at any depth. *)
Fixpoint plain (v : value) : bool :=
  match v with
  | VConfig a d =>
      match a with
      | [] =>
          (fix all (l : dict) : bool :=
             match l with
             | [] => true
             | kv :: l' => plain (snd kv) && all l'
             end) d
      | _ :: _ => false
      end
  | _ => true
  end.

Definition is_str (v : value) : bool :=
  match v with
  | VScalar (SStr _) => true
  | _ => false
  end.

(** The four fields of a general-error descriptor. *)
Definition reserved (s : string) : bool :=
  existsb (String.eqb s) ["prefix"; "invalid"; "missing"; "suffix"].

(** A general-error descriptor as given by the user: a dictionary of texts
    under keys that are text or integers, none of them [_]. *)
Definition descriptor (v : value) : bool :=
  match items_of v with
  | Some d =>
      forallb (fun kv => is_str_or_int (fst kv)
                         && negb (String.eqb (identifier (fst kv)) "_")
                         && is_str (snd kv)) d
  | None => false
  end.


(** The condition [descriptor] puts on one item. *)
Definition descr_item (kv : key * value) : Prop :=
  is_str_or_int (fst kv) = true
  /\ identifier (fst kv) <> "_"
  /\ is_str (snd kv) = true.





(** Where a report was made: the path and the name it carries. *)
Definition report_site (r : report) : string * option key :=
  (fi_path (snd r), fi_name (snd r)).

(** The general errors in force at a node: the four fields, all texts. *)
Definition general (g : dict) : Prop :=
  canonical_items g
  /\ descriptor (VConfig [] g) = true
  /\ forall s, reserved s = true -> exists m, Dict.get (KStr s) g = Some (VStr m).





(** ** Tactics *)



(** The reports made before a call are kept, and new ones come after. *)
Definition keeps_log
  (f : list report -> list report * outcome bool) : Prop :=
  forall log, exists tail, fst (f log) = log ++ tail.

(** ** Vocabulary of the further properties *)

(** The text starts with a digit. *)
Definition leading_digit (s : string) : bool :=
  match s with
  | String c _ => Text.isdigit c
  | EmptyString => false
  end.

(** No character of the text is punctuation or whitespace, the underscore
    apart. *)
Fixpoint clean (s : string) : Prop :=
  match s with
  | EmptyString => True
  | String c s' =>
      (c = "_"%char \/ Text.mem c (Text.punctuation ++ Text.whitespace) = false)
      /\ clean s'
  end.

(** The last, and the first, item of a dictionary literal whose key
    normalises to the name [s]. *)
Fixpoint last_named (s : string) (l : dict) : option value :=
  match l with
  | [] => None
  | (k, v) :: l' =>
      match last_named s l' with
      | Some v' => Some v'
      | None => if String.eqb (identifier k) s then Some v else None
      end
  end.

Fixpoint first_named (s : string) (l : dict) : option value :=
  match l with
  | [] => None
  | (k, v) :: l' =>
      if String.eqb (identifier k) s then Some v else first_named s l'
  end.

(** A store as the constructor leaves it, at every depth: no instance
    attribute, every key an identifier and there once, and no plain
    dictionary among the values. *)
Fixpoint well_formed (v : value) : Prop :=
  match v with
  | VConfig a d =>
      a = [] /\ NoDup (Dict.keys d) /\ normal_keys d
      /\ (fix all (l : dict) : Prop :=
            match l with
            | [] => True
            | kv :: l' => well_formed (snd kv) /\ all l'
            end) d
  | VDict _ => False
  | _ => True
  end.

(** Defaults one level deep: keys that are text or integers, values that
    are no dictionaries. *)
Definition flat (l : dict) : Prop :=
  Forall (fun kv => is_str_or_int (fst kv) = true /\ is_dict (snd kv) = false) l.

(** The items of a well-formed store. *)
Definition well_formed_items (d : dict) : Prop :=
  NoDup (Dict.keys d)
  /\ normal_keys d
  /\ Forall (fun kv => well_formed (snd kv)) d.

(** ** The demonstration script *)

Module Demo.

Definition values : value :=
  VDict
    [ (KInt 1337, VStr "1 M 50 1337");
      (KStr "A", VDict [(KStr "ASCII", VInt 65); (KStr "kind", VStr "alpha");
                        (KStr "case", VStr "upper")]);
      (KStr "a", VDict [(KStr "ASCII", VInt 97); (KStr "kind", VStr "alpha");
                        (KStr "case", VStr "lowre")]);
      (KStr "B", VDict [(KStr "ASCII", VInt 660); (KStr "kind", VStr "alpha");
                        (KStr "case", VStr "upper")]);
      (KStr "b", VDict [(KStr "ASCII", VInt 89)]) ].

Definition defaults : value :=
  VDict
    [ (KStr "b", VDict [(KStr "ASCII", VInt 98); (KStr "kind", VStr "alpha");
                        (KStr "case", VStr "lower")]) ].

(** [lambda x: 65 <= x <= 90] *)
Definition in_range (x : value) : outcome bool :=
  match x with
  | VScalar (SInt z) => Ok ((65 <=? z)%Z && (z <=? 90)%Z)
  | VScalar (SBool b) => Ok false
  | _ => Raise OperandError
  end.

(** [lambda x, *args, **kwargs: True] and [lambda x, **kwargs: True] *)
Definition always (x : value) (args : list value) (kwargs : dict) : outcome bool :=
  Ok true.

(** [lambda x: x.startswith('abc')] *)
Definition starts_with_abc (x : value) : outcome bool :=
  match x with
  | VScalar (SStr s) => Ok (String.prefix "abc" s)
  | _ => Raise (AttributeError "startswith")
  end.

Definition template : template :=
  TNested
    [ (KStr "A", TNested [(KStr "ASCII", TCheck (CType TInt));
                          (KStr "kind", TCheck (CType TStr));
                          (KStr "case", TCheck (CList [CType TStr; CType TBool]))]);
      (KStr "a", TNested [(KStr "ASCII", TCheck (CValue (SInt 97)));
                          (KStr "kind", TCheck (CValue (SStr "alpha")));
                          (KStr "case", TCheck (CList [CValue (SStr "upper");
                                                       CValue (SStr "lower")]))]);
      (KStr "B", TNested [(KStr "ASCII", TCheck (CCallable in_range));
                          (KStr "kind",
                           TCheck (CTuple (Tup3 always (ArgList [VInt 0; VInt 1])
                                             [(KStr "a", VStr "b")])));
                          (KStr "case",
                           TCheck (CTuple (Tup2 always (ArgDict [(KStr "a", VStr "b")]))))]);
      (KStr "b", TNested [(KStr "ASCII", TCheck (CList [CType TBool; CCallable in_range]));
                          (KStr "kind",
                           TCheck (CSet [CType TStr; CCallable starts_with_abc]))]) ].

(** The error messages of the script; the double quotes inside the text for
    [case] are left out. *)
Definition error_messages : value :=
  VDict
    [ (KStr "_", VDict [(KStr "prefix", VStr "{path}.{name} ");
                        (KStr "invalid", VStr "is invalid");
                        (KStr "missing", VStr "is missing")]);
      (KStr "a", VDict [(KStr "case",
                         VDict [(KStr "invalid", VStr "should be upper or lower");
                                (KStr "missing", VStr "is not defined")])]);
      (KStr "B", VDict [(KStr "_", VDict [(KStr "invalid", VStr "is not valid");
                                          (KStr "missing", VStr "is not defined")])]);
      (KStr "b", VStr "ain't valid") ].

(** [cfg = Config(values, defaults)] *)
Definition cfg : value :=
  VConfig []
    [ (KStr "_1337", VStr "1 M 50 1337");
      (KStr "A", VConfig [] [(KStr "ASCII", VInt 65); (KStr "kind", VStr "alpha");
                             (KStr "case", VStr "upper")]);
      (KStr "a", VConfig [] [(KStr "ASCII", VInt 97); (KStr "kind", VStr "alpha");
                             (KStr "case", VStr "lowre")]);
      (KStr "B", VConfig [] [(KStr "ASCII", VInt 660); (KStr "kind", VStr "alpha");
                             (KStr "case", VStr "upper")]);
      (KStr "b", VConfig [] [(KStr "ASCII", VInt 89); (KStr "kind", VStr "alpha");
                             (KStr "case", VStr "lower")]) ].

(** [cfg] after [cfg.B.ASCII = 0], which changes the nested store in
    place. *)
Definition cfg_after_assignment : value :=
  match cfg with
  | VConfig a d =>
      match Config.getattr cfg "B" with
      | Ok nested => VConfig a (Dict.set (KStr "B") (Config.__setattr__ nested "ASCII" (VInt 0)) d)
      | Raise _ => cfg
      end
  | _ => cfg
  end.

End Demo.

(** * Properties *)

(** ** Keys and their identifiers *)

Lemma key_eqb_eq (a b : key) : key_eqb a b = true <-> a = b.
Proof.
  destruct a, b; simpl; split; intros H; try discriminate; try reflexivity.
  - apply String.eqb_eq in H. now subst.
  - inversion H. apply String.eqb_refl.
  - apply Z.eqb_eq in H. now subst.
  - inversion H. apply Z.eqb_refl.
Qed.

Lemma key_eqb_refl (a : key) : key_eqb a a = true.
Proof. now apply key_eqb_eq. Qed.

Lemma key_eqb_neq (a b : key) : key_eqb a b = false <-> a <> b.
Proof.
  split.
  - intros H E. apply key_eqb_eq in E. congruence.
  - intros H. destruct (key_eqb a b) eqn:E; [|reflexivity].
    apply key_eqb_eq in E. contradiction.
Qed.

Lemma key_eqb_sym (a b : key) : key_eqb a b = key_eqb b a.
Proof.
  destruct (key_eqb b a) eqn:E.
  - apply key_eqb_eq in E. subst. apply key_eqb_refl.
  - apply key_eqb_neq. apply key_eqb_neq in E. congruence.
Qed.

Lemma trans_table_idem (c : ascii) :
  Text.trans_table (Text.trans_table c) = Text.trans_table c.
Proof.
  unfold Text.trans_table.
  destruct (Text.mem c (Text.punctuation ++ Text.whitespace)) eqn:E.
  - reflexivity.
  - now rewrite E.
Qed.

Lemma translate_idem (s : string) :
  Text.translate (Text.translate s) = Text.translate s.
Proof.
  induction s as [|c s IH]; simpl; [reflexivity|].
  now rewrite trans_table_idem, IH.
Qed.

Lemma trans_table_not_digit (c : ascii) :
  Text.isdigit c = false -> Text.isdigit (Text.trans_table c) = false.
Proof.
  intros H. unfold Text.trans_table.
  now destruct (Text.mem c (Text.punctuation ++ Text.whitespace)).
Qed.

Lemma str_of_Z_nonempty (z : Z) : Text.str_of_Z z <> "".
Proof.
  unfold Text.str_of_Z.
  destruct (Z.to_int z) as [u|u]; simpl; [|discriminate].
  destruct u; simpl; discriminate.
Qed.

(** [str] of a key is empty only for the empty text, so [identifier] never
    reads the first character of an empty string. *)
Lemma str_nonempty (k : key) : key_eqb k (KStr "") = false -> str k <> "".
Proof.
  destruct k as [s|z|]; simpl; intros H.
  - intros E. subst. discriminate.
  - apply str_of_Z_nonempty.
  - discriminate.
Qed.

Lemma identifier_normal (k : key) : normal (identifier k).
Proof.
  unfold identifier.
  destruct (key_eqb k (KStr "")) eqn:E.
  - split; reflexivity.
  - pose proof (str_nonempty k E) as Hne.
    destruct (str k) as [|c s]; [contradiction|].
    destruct (Text.isdigit c) eqn:D; split; simpl.
    + reflexivity.
    + now rewrite !trans_table_idem, translate_idem.
    + now apply trans_table_not_digit.
    + now rewrite trans_table_idem, translate_idem.
Qed.

Lemma identifier_of_normal (s : string) : normal s -> identifier (KStr s) = s.
Proof.
  intros [Hhead Htr]. unfold identifier.
  destruct s as [|c s]; [contradiction|].
  simpl. rewrite Hhead. exact Htr.
Qed.

Lemma identifier_idem (k : key) : identifier (KStr (identifier k)) = identifier k.
Proof. apply identifier_of_normal, identifier_normal. Qed.

(** C10.  Key normalisation is idempotent, for every key (text, integer or
    other); so when [get] is given a normalised name, the lookup it retries
    under [identifier] is the lookup of that same name, and the name
    resolves to what the mapping stores under it. *)
Theorem identifier_idempotent :
  forall k : key,
    identifier (KStr (identifier k)) = identifier k
    /\ forall self : dict,
         Dict.get (KStr (identifier (KStr (identifier k)))) self
         = Dict.get (KStr (identifier k)) self
         /\ Config.__getitem__ self (KStr (identifier k))
            = match Dict.get (KStr (identifier k)) self with
              | Some v => Ok v
              | None => Raise (KeyError (KStr (identifier k)))
              end.
Proof.
  intros k. split; [apply identifier_idem|].
  intros self. rewrite identifier_idem. split; [reflexivity|].
  unfold Config.__getitem__. rewrite identifier_idem.
  now destruct (Dict.get (KStr (identifier k)) self).
Qed.

(** ** The check engine *)

Section CheckLoopFacts.
Import Validate.
Variable rec : check -> outcome bool.

Lemma any_loop_false (cs : list check) :
  any_loop rec cs = Ok false <-> Forall (fun c => rec c = Ok false) cs.
Proof.
  induction cs as [|c cs IH]; simpl.
  - split; [constructor | reflexivity].
  - destruct (rec c) as [[|]|e] eqn:E.
    + split; [discriminate | intros H; inversion H; congruence].
    + rewrite IH. split; [now constructor | intros H; now inversion H].
    + split; [discriminate | intros H; inversion H; congruence].
Qed.

Lemma any_loop_true (cs : list check) :
  any_loop rec cs = Ok true <->
  exists l1 c l2,
    cs = l1 ++ c :: l2
    /\ Forall (fun c' => rec c' = Ok false) l1
    /\ rec c = Ok true.
Proof.
  induction cs as [|c cs IH]; simpl.
  - split; [discriminate|].
    intros (l1 & c & l2 & H & _). now destruct l1.
  - destruct (rec c) as [[|]|e] eqn:E.
    + split; [|reflexivity]. intros _.
      exists [], c, cs. repeat split; [constructor | exact E].
    + rewrite IH. split.
      * intros (l1 & c' & l2 & -> & Hl & Hc).
        exists (c :: l1), c', l2. repeat split; [now constructor | exact Hc].
      * intros (l1 & c' & l2 & Hcs & Hl & Hc).
        destruct l1 as [|x l1]; simpl in Hcs; inversion Hcs; subst.
        -- congruence.
        -- exists l1, c', l2. inversion Hl. now repeat split.
    + split; [discriminate|].
      intros (l1 & c' & l2 & Hcs & Hl & Hc).
      destruct l1 as [|x l1]; simpl in Hcs; inversion Hcs; subst.
      * congruence.
      * inversion Hl. congruence.
Qed.

Lemma all_loop_true (cs : list check) :
  all_loop rec cs = Ok true <-> Forall (fun c => rec c = Ok true) cs.
Proof.
  induction cs as [|c cs IH]; simpl.
  - split; [constructor | reflexivity].
  - destruct (rec c) as [[|]|e] eqn:E.
    + rewrite IH. split; [now constructor | intros H; now inversion H].
    + split; [discriminate | intros H; inversion H; congruence].
    + split; [discriminate | intros H; inversion H; congruence].
Qed.

Lemma all_loop_false (cs : list check) :
  all_loop rec cs = Ok false <->
  exists l1 c l2,
    cs = l1 ++ c :: l2
    /\ Forall (fun c' => rec c' = Ok true) l1
    /\ rec c = Ok false.
Proof.
  induction cs as [|c cs IH]; simpl.
  - split; [discriminate|].
    intros (l1 & c & l2 & H & _). now destruct l1.
  - destruct (rec c) as [[|]|e] eqn:E.
    + rewrite IH. split.
      * intros (l1 & c' & l2 & -> & Hl & Hc).
        exists (c :: l1), c', l2. repeat split; [now constructor | exact Hc].
      * intros (l1 & c' & l2 & Hcs & Hl & Hc).
        destruct l1 as [|x l1]; simpl in Hcs; inversion Hcs; subst.
        -- congruence.
        -- exists l1, c', l2. inversion Hl. now repeat split.
    + split; [|reflexivity]. intros _.
      exists [], c, cs. repeat split; [constructor | exact E].
    + split; [discriminate|].
      intros (l1 & c' & l2 & Hcs & Hl & Hc).
      destruct l1 as [|x l1]; simpl in Hcs; inversion Hcs; subst.
      * congruence.
      * inversion Hl. congruence.
Qed.

(** When every sub-check returns, the loops compute [any] and [all]. *)
Lemma any_loop_total (cs : list check) :
  Forall (fun c => exists b, rec c = Ok b) cs ->
  (any_loop rec cs = Ok true <-> Exists (fun c => rec c = Ok true) cs)
  /\ exists b, any_loop rec cs = Ok b.
Proof.
  induction 1 as [|c cs [b Hb] _ [IH1 IH2]]; simpl.
  - split; [|now exists false]. split; [discriminate | intros H; inversion H].
  - rewrite Hb. destruct b.
    + split; [|now exists true]. split; [now left | reflexivity].
    + split; [|exact IH2]. rewrite IH1. split; [now right|].
      intros H. inversion H; [congruence | assumption].
Qed.

Lemma all_loop_total (cs : list check) :
  Forall (fun c => exists b, rec c = Ok b) cs ->
  (all_loop rec cs = Ok false <-> Exists (fun c => rec c = Ok false) cs)
  /\ exists b, all_loop rec cs = Ok b.
Proof.
  induction 1 as [|c cs [b Hb] _ [IH1 IH2]]; simpl.
  - split; [|now exists true]. split; [discriminate | intros H; inversion H].
  - rewrite Hb. destruct b.
    + split; [|exact IH2]. rewrite IH1. split; [now right|].
      intros H. inversion H; [congruence | assumption].
    + split; [|now exists false]. split; [now left | reflexivity].
Qed.
End CheckLoopFacts.

(** C5.  A list check passes exactly when some sub-check passes and every
    one before it failed, whatever comes after it (the loop stops at the
    first success); it fails exactly when every sub-check fails.  A set
    check fails exactly when some sub-check fails and every one before it
    passed (the loop stops at the first failure); it passes exactly when
    every sub-check passes.  The empty list fails and the empty set
    passes. *)
Theorem check_any_of_all_of :
  forall attr : value,
    (forall cs,
        Validate._check attr (CList cs) = Ok true <->
        exists l1 c l2,
          cs = l1 ++ c :: l2
          /\ Forall (fun c' => Validate._check attr c' = Ok false) l1
          /\ Validate._check attr c = Ok true)
    /\ (forall cs,
           Validate._check attr (CList cs) = Ok false <->
           Forall (fun c => Validate._check attr c = Ok false) cs)
    /\ (forall cs,
           Validate._check attr (CSet cs) = Ok false <->
           exists l1 c l2,
             cs = l1 ++ c :: l2
             /\ Forall (fun c' => Validate._check attr c' = Ok true) l1
             /\ Validate._check attr c = Ok false)
    /\ (forall cs,
           Validate._check attr (CSet cs) = Ok true <->
           Forall (fun c => Validate._check attr c = Ok true) cs)
    /\ (forall cs,
           Forall (fun c => exists b, Validate._check attr c = Ok b) cs ->
           (Validate._check attr (CList cs) = Ok true <->
            Exists (fun c => Validate._check attr c = Ok true) cs)
           /\ (Validate._check attr (CSet cs) = Ok true <->
               Forall (fun c => Validate._check attr c = Ok true) cs)
           /\ (exists b, Validate._check attr (CList cs) = Ok b)
           /\ (exists b, Validate._check attr (CSet cs) = Ok b))
    /\ Validate._check attr (CList []) = Ok false
    /\ Validate._check attr (CSet []) = Ok true.
Proof.
  intros attr. repeat split.
  - now apply any_loop_true.
  - now apply any_loop_true.
  - now apply any_loop_false.
  - now apply any_loop_false.
  - now apply all_loop_false.
  - now apply all_loop_false.
  - now apply all_loop_true.
  - now apply all_loop_true.
  - now apply (any_loop_total (Validate._check attr) cs).
  - now apply (any_loop_total (Validate._check attr) cs).
  - now apply all_loop_true.
  - now apply all_loop_true.
  - now apply (any_loop_total (Validate._check attr) cs).
  - now apply (all_loop_total (Validate._check attr) cs).
Qed.

(** The scenario of the demonstration: [[bool, lambda v: 65 <= v <= 90]]
    passes on 89, which is no boolean. *)
Example check_any_of_range :
  Validate._check (VInt 89)
    (CList [CType TBool;
            CCallable (fun v =>
              match v with
              | VScalar (SInt z) => Ok ((65 <=? z)%Z && (z <=? 90)%Z)
              | _ => Raise OperandError
              end)])
  = Ok true.
Proof. reflexivity. Qed.

(** Stopping at the first success: a callable that raises is not reached
    after a sub-check that passed, and is reached before it. *)
Example check_any_of_stops :
  Validate._check (VInt 1)
    (CList [CType TInt; CCallable (fun _ => Raise (Other "boom"))]) = Ok true
  /\ Validate._check (VInt 1)
       (CList [CCallable (fun _ => Raise (Other "boom")); CType TInt])
     = Raise (Other "boom")
  /\ Validate._check (VInt 1)
       (CSet [CType TStr; CCallable (fun _ => Raise (Other "boom"))]) = Ok false.
Proof. repeat split. Qed.

(** ** Dictionaries *)

Lemma get_set_same (k : key) (v : value) (d : dict) :
  Dict.get k (Dict.set k v d) = Some v.
Proof.
  induction d as [|[k' v'] d IH]; simpl.
  - now rewrite key_eqb_refl.
  - destruct (key_eqb k k') eqn:E; simpl; now rewrite E.
Qed.

Lemma get_set_other (k k' : key) (v : value) (d : dict) :
  k <> k' -> Dict.get k' (Dict.set k v d) = Dict.get k' d.
Proof.
  intros Hne. induction d as [|[k0 v0] d IH]; simpl.
  - assert (key_eqb k' k = false) as -> by (apply key_eqb_neq; congruence).
    reflexivity.
  - destruct (key_eqb k k0) eqn:E; simpl.
    + apply key_eqb_eq in E. subst k0.
      assert (key_eqb k' k = false) as -> by (apply key_eqb_neq; congruence).
      reflexivity.
    + now rewrite IH.
Qed.

Lemma set_present_keys (k : key) (v : value) (d : dict) :
  Dict.contains k d = true -> Dict.keys (Dict.set k v d) = Dict.keys d.
Proof.
  unfold Dict.contains. induction d as [|[k' v'] d IH]; simpl; [discriminate|].
  destruct (key_eqb k k') eqn:E; simpl; intros H; [reflexivity|].
  now rewrite IH.
Qed.

Lemma set_absent (k : key) (v : value) (d : dict) :
  Dict.get k d = None -> Dict.set k v d = d ++ [(k, v)].
Proof.
  induction d as [|[k' v'] d IH]; simpl; [reflexivity|].
  destruct (key_eqb k k') eqn:E; [discriminate|].
  intros H. now rewrite IH.
Qed.

Lemma set_get_same (k : key) (v : value) (d : dict) :
  Dict.get k d = Some v -> Dict.set k v d = d.
Proof.
  induction d as [|[k' v'] d IH]; simpl; [discriminate|].
  destruct (key_eqb k k') eqn:E.
  - intros H. now inversion H.
  - intros H. now rewrite IH.
Qed.

Lemma get_in (k : key) (v : value) (d : dict) :
  Dict.get k d = Some v -> In (k, v) d.
Proof.
  induction d as [|[k' v'] d IH]; simpl; [discriminate|].
  destruct (key_eqb k k') eqn:E; intros H.
  - apply key_eqb_eq in E. inversion H. subst. now left.
  - right. now apply IH.
Qed.

Lemma get_none_not_in (k : key) (d : dict) :
  Dict.get k d = None <-> ~ In k (Dict.keys d).
Proof.
  induction d as [|[k' v'] d IH]; simpl.
  - tauto.
  - destruct (key_eqb k k') eqn:E.
    + apply key_eqb_eq in E. subst. split; [discriminate | tauto].
    + apply key_eqb_neq in E. rewrite IH. split; [intros H [F|F] | ]; intuition congruence.
Qed.

Lemma contains_true (k : key) (d : dict) :
  Dict.contains k d = true <-> exists v, Dict.get k d = Some v.
Proof.
  unfold Dict.contains. destruct (Dict.get k d) as [v|].
  - split; [intros _; now exists v | reflexivity].
  - split; [discriminate | intros [v H]; discriminate].
Qed.

Lemma contains_false (k : key) (d : dict) :
  Dict.contains k d = false <-> Dict.get k d = None.
Proof.
  unfold Dict.contains. now destruct (Dict.get k d).
Qed.

(** A key that is not its own identifier is not a key of a dictionary whose
    keys are identifiers. *)
Lemma normal_keys_miss (d : dict) (k : key) :
  normal_keys d -> k <> KStr (identifier k) -> Dict.get k d = None.
Proof.
  intros Hn Hk. apply get_none_not_in. intros Hin.
  apply in_map_iff in Hin. destruct Hin as ([k' v] & Hfst & Hin). simpl in Hfst. subst k'.
  unfold normal_keys in Hn. rewrite Forall_forall in Hn.
  destruct (Hn _ Hin) as (s & Hs & Hnorm). simpl in Hs. subst k.
  apply Hk. now rewrite identifier_of_normal.
Qed.

(** ** Induction on values and on templates *)

Section ValueInduction.
Variable P : value -> Prop.
Hypothesis Hscalar : forall s, P (VScalar s).
Hypothesis Hclass : forall n, P (VClassObj n).
Hypothesis Hdict : forall d, Forall (fun kv => P (snd kv)) d -> P (VDict d).
Hypothesis Hconfig :
  forall a d,
    Forall (fun kv => P (snd kv)) a -> Forall (fun kv => P (snd kv)) d ->
    P (VConfig a d).

Fixpoint value_nested_ind (v : value) : P v :=
  let over :=
    fix over (l : dict) : Forall (fun kv => P (snd kv)) l :=
      match l with
      | [] => Forall_nil _
      | kv :: l' => Forall_cons kv (value_nested_ind (snd kv)) (over l')
      end in
  match v with
  | VScalar s => Hscalar s
  | VClassObj n => Hclass n
  | VDict d => Hdict d (over d)
  | VConfig a d => Hconfig a d (over a) (over d)
  end.
End ValueInduction.

Section TemplateInduction.
Variable P : template -> Prop.
Hypothesis Hcheck : forall c, P (TCheck c).
Hypothesis Hnested :
  forall fields, Forall (fun kt => P (snd kt)) fields -> P (TNested fields).

Fixpoint template_nested_ind (t : template) : P t :=
  match t with
  | TCheck c => Hcheck c
  | TNested fields =>
      Hnested fields
        ((fix over (l : list (key * template)) : Forall (fun kt => P (snd kt)) l :=
            match l with
            | [] => Forall_nil _
            | kt :: l' => Forall_cons kt (template_nested_ind (snd kt)) (over l')
            end) fields)
  end.
End TemplateInduction.

(** ** Error messages *)

(** A field whose override is not a [Config] gets the same message in both
    situations: the override is read before the situation is looked at. *)
Lemma scalar_override_ignores_situation (error_msgs : value) (attr_name : key) (d : dict) (v : value) :
  items_of error_msgs = Some d ->
  Dict.get attr_name d = Some v ->
  is_config v = false ->
  Validate._get_error_msg attr_name error_msgs true
  = Validate._get_error_msg attr_name error_msgs false.
Proof.
  intros Hd Hget Hv. unfold Validate._get_error_msg.
  destruct (Config.getattr error_msgs "_") as [g|e]; simpl; [|reflexivity].
  unfold dict_get_method. rewrite Hd, Hget.
  destruct (items_of g) as [dg|]; simpl; [|reflexivity].
  destruct (Dict.get (KStr "missing") dg), (Dict.get (KStr "invalid") dg);
    simpl; rewrite Hv; reflexivity.
Qed.

(** C1.  With the error messages [{'x': 'custom'}], the message resolved
    for the situation [missing] of field [x] is the bare string between the
    general prefix and suffix, not the general text [is missing]; validating
    an empty configuration against [{'x': int}] reports that message.  The
    claim, and the docstring of [follows_template], reserve the bare string
    for the situation [invalid]. *)
Theorem bare_string_override_on_missing :
  (exists msgs,
      Validate._prepare_error_msgs (VConfig [] [])
        (VDict [(KStr "x", VStr "custom")]) (VDict []) = Ok msgs
      /\ Validate._get_error_msg (KStr "x") msgs true
         = Ok (VStr "{path}.{name} custom.")
      /\ Validate._get_error_msg (KStr "y") msgs true
         = Ok (VStr "{path}.{name} is missing."))
  /\ Validate.follows_template (VConfig [] [])
       (TNested [(KStr "x", TCheck (CType TInt))])
       (VDict [(KStr "x", VStr "custom")])
     = ([("{path}.{name} custom.",
          {| fi_missing := true; fi_name := Some (KStr "x");
             fi_path := ""; fi_value := VNone |})],
        Ok false).
Proof.
  split; [|reflexivity].
  eexists. split; [reflexivity|]. split; reflexivity.
Qed.

(** ** The formatting information *)

(** C3.  The configuration [{'a': 1}] against the template
    [{'a': str, 'b': int}]: [a] is invalid and [b] is missing.  The report
    for [b] carries the missing-situation message, but its formatting
    context still holds what the report for [a] left there: [missing] is
    false and [value] is 1, where the claim has [missing] true and [value]
    absent. *)
Theorem missing_after_invalid_keeps_stale_info :
  Validate.follows_template (VConfig [] [(KStr "a", VInt 1)])
    (TNested [(KStr "a", TCheck (CType TStr)); (KStr "b", TCheck (CType TInt))])
    (VDict [])
  = ([("{path}.{name} is invalid.",
       {| fi_missing := false; fi_name := Some (KStr "a");
          fi_path := ""; fi_value := VInt 1 |});
      ("{path}.{name} is missing.",
       {| fi_missing := false; fi_name := Some (KStr "b");
          fi_path := ""; fi_value := VInt 1 |})],
     Ok false).
Proof. reflexivity. Qed.

(** Without an invalid field before it, a missing field is reported the
    way the claim says. *)
Example missing_first_has_fresh_info :
  Validate.follows_template (VConfig [] [(KStr "a", VInt 1)])
    (TNested [(KStr "b", TCheck (CType TInt)); (KStr "a", TCheck (CType TStr))])
    (VDict [])
  = ([("{path}.{name} is missing.",
       {| fi_missing := true; fi_name := Some (KStr "b");
          fi_path := ""; fi_value := VNone |});
      ("{path}.{name} is invalid.",
       {| fi_missing := false; fi_name := Some (KStr "a");
          fi_path := ""; fi_value := VInt 1 |})],
     Ok false).
Proof. reflexivity. Qed.

(** ** Reading and writing fields *)

Lemma normal_keys_set (d : dict) (s : string) (v : value) :
  normal_keys d -> normal s -> normal_keys (Dict.set (KStr s) v d).
Proof.
  unfold normal_keys. intros Hd Hs.
  induction d as [|[k' v'] d IH]; cbn [Dict.set].
  - constructor; [|constructor]. now exists s.
  - inversion Hd as [|? ? Hk Hd']; subst.
    destruct (key_eqb (KStr s) k'); constructor; auto.
Qed.

Lemma getitem_after_set (d : dict) (k : key) (c : value) :
  normal_keys d ->
  Config.__getitem__ (Dict.set (KStr (identifier k)) c d) k = Ok c.
Proof.
  intros Hn. unfold Config.__getitem__.
  destruct (key_eqb k (KStr (identifier k))) eqn:E.
  - apply key_eqb_eq in E.
    assert (Dict.get k (Dict.set (KStr (identifier k)) c d) = Some c) as ->
      by (rewrite <- E; apply get_set_same).
    reflexivity.
  - apply key_eqb_neq in E.
    rewrite get_set_other by congruence.
    rewrite (normal_keys_miss d k Hn E).
    now rewrite get_set_same.
Qed.

Lemma getattr_free (a d : dict) (name : string) :
  free_name a name ->
  Config.getattr (VConfig a d) name = Config.__getattr__ d name.
Proof.
  intros [Ha Hc]. simpl. now rewrite Ha, Hc.
Qed.

(** C4, as amended.  In a store whose keys are identifiers, after
    [update({k: v})] with [k] text or an integer, [get(k)] and
    [get(identifier(k))] return the value stored for [v] (the nested store
    built from it when [v] is a dictionary), and so does member access on
    [identifier(k)] when no attribute of the object has that name. *)
Theorem update_then_get :
  forall (a d : dict) (k : key) (v c : value),
    is_str_or_int k = true ->
    normal_keys d ->
    stored v = Ok c ->
    exists d',
      Config.update (VConfig a d) (VDict [(k, v)]) = (VConfig a d', None)
      /\ Config.__getitem__ d' k = Ok c
      /\ Config.__getitem__ d' (KStr (identifier k)) = Ok c
      /\ (free_name a (identifier k) ->
          Config.getattr (VConfig a d') (identifier k) = Ok c)
      /\ normal_keys d'.
Proof.
  intros a d k v c Hk Hn Hst.
  exists (Dict.set (KStr (identifier k)) c d).
  assert (Config.__getitem__ (Dict.set (KStr (identifier k)) c d) (KStr (identifier k)) = Ok c) as Hid.
  { unfold Config.__getitem__. now rewrite get_set_same. }
  repeat split.
  - unfold Config.update, Config.update_items, stored in *. simpl.
    rewrite Hk. destruct (is_dict v); [now rewrite Hst | now inversion Hst].
  - now apply getitem_after_set.
  - exact Hid.
  - intros Hfree. rewrite getattr_free by assumption.
    unfold Config.__getattr__. now rewrite Hid.
  - apply normal_keys_set; [assumption | apply identifier_normal].
Qed.

Lemma update_then_get_witness :
  exists d',
    Config.update (VConfig [] []) (VDict [(KInt 1337, VStr "x")]) = (VConfig [] d', None)
    /\ Config.__getitem__ d' (KInt 1337) = Ok (VStr "x")
    /\ Config.__getitem__ d' (KStr (identifier (KInt 1337))) = Ok (VStr "x")
    /\ (free_name [] (identifier (KInt 1337)) ->
        Config.getattr (VConfig [] d') (identifier (KInt 1337)) = Ok (VStr "x"))
    /\ normal_keys d'.
Proof.
  apply (update_then_get [] [] (KInt 1337) (VStr "x") (VStr "x")).
  - reflexivity.
  - constructor.
  - reflexivity.
Defined.

(** The claim as stated fails on a name the class defines: after
    [update({'items': 5})], map-style reads return 5 and [cfg.items] is the
    method of [dict]. *)
Lemma update_then_member_access_shadowed :
  Config.update (VConfig [] []) (VDict [(KStr "items", VInt 5)])
  = (VConfig [] [(KStr "items", VInt 5)], None)
  /\ identifier (KStr "items") = "items"
  /\ Config.__getitem__ [(KStr "items", VInt 5)] (KStr "items") = Ok (VInt 5)
  /\ Config.getattr (VConfig [] [(KStr "items", VInt 5)]) "items" = Ok (VClassObj "items")
  /\ Config.getattr (VConfig [] [(KStr "items", VInt 5)]) "items" <> Ok (VInt 5).
Proof. repeat split; try reflexivity. discriminate. Qed.

(** The scenario of the specification: the store built from
    [{1337: 'x', 'A': {'ASCII': 65}}]. *)
Example scenario_1337 :
  exists store nested,
    Config.__init__
      (VDict [(KInt 1337, VStr "x"); (KStr "A", VDict [(KStr "ASCII", VInt 65)])])
      (VDict []) = Ok (VConfig [] store)
    /\ Config.__getitem__ store (KInt 1337) = Ok (VStr "x")
    /\ Config.__getitem__ store (KStr "_1337") = Ok (VStr "x")
    /\ Config.getattr (VConfig [] store) "_1337" = Ok (VStr "x")
    /\ Config.__getitem__ store (KStr "A") = Ok (VConfig [] nested)
    /\ Config.__getitem__ nested (KStr "ASCII") = Ok (VInt 65).
Proof. do 2 eexists. repeat split; reflexivity. Qed.

(** C8, as amended.  Assigning to a member that is an item of the store
    overwrites the item: map-style reads see the new value, the keys stay,
    and member-style reads see it too when no attribute of the object has
    that name.  Assigning to any other name leaves the mapping as it was,
    so its keys and every [get] are unchanged; a name that is an identifier
    and was not stored still fails with [KeyError]. *)
Theorem setattr_existing_or_new :
  forall (a d : dict) (attr : string) (v : value),
    (Dict.contains (KStr attr) d = true ->
     exists d',
       Config.__setattr__ (VConfig a d) attr v = VConfig a d'
       /\ Config.__getitem__ d' (KStr attr) = Ok v
       /\ Dict.keys d' = Dict.keys d
       /\ (free_name a attr -> Config.getattr (VConfig a d') attr = Ok v))
    /\ (Dict.contains (KStr attr) d = false ->
        exists a',
          Config.__setattr__ (VConfig a d) attr v = VConfig a' d
          /\ Dict.get (KStr attr) a' = Some v
          /\ (normal attr ->
              Config.__getitem__ d (KStr attr) = Raise (KeyError (KStr attr)))).
Proof.
  intros a d attr v. split; intros Hc.
  - exists (Dict.set (KStr attr) v d).
    assert (Config.__getitem__ (Dict.set (KStr attr) v d) (KStr attr) = Ok v) as Hget.
    { unfold Config.__getitem__. now rewrite get_set_same. }
    simpl. rewrite Hc. repeat split.
    + exact Hget.
    + now apply set_present_keys.
    + intros [Ha Hcl]. rewrite Ha, Hcl. unfold Config.__getattr__. now rewrite Hget.
  - exists (Dict.set (KStr attr) v a). simpl. rewrite Hc. repeat split.
    + apply get_set_same.
    + intros Hn. unfold Config.__getitem__.
      apply contains_false in Hc.
      now rewrite (identifier_of_normal attr Hn), Hc.
Qed.

Lemma setattr_existing_or_new_witness :
  (Dict.contains (KStr "ASCII") [(KStr "ASCII", VInt 660)] = true ->
   exists d',
     Config.__setattr__ (VConfig [] [(KStr "ASCII", VInt 660)]) "ASCII" (VInt 0)
     = VConfig [] d'
     /\ Config.__getitem__ d' (KStr "ASCII") = Ok (VInt 0)
     /\ Dict.keys d' = Dict.keys [(KStr "ASCII", VInt 660)]
     /\ (free_name [] "ASCII" -> Config.getattr (VConfig [] d') "ASCII" = Ok (VInt 0)))
  /\ (Dict.contains (KStr "ASCII") [(KStr "ASCII", VInt 660)] = false ->
      exists a',
        Config.__setattr__ (VConfig [] [(KStr "ASCII", VInt 660)]) "ASCII" (VInt 0)
        = VConfig a' [(KStr "ASCII", VInt 660)]
        /\ Dict.get (KStr "ASCII") a' = Some (VInt 0)
        /\ (normal "ASCII" ->
            Config.__getitem__ [(KStr "ASCII", VInt 660)] (KStr "ASCII")
            = Raise (KeyError (KStr "ASCII")))).
Proof.
  exact (setattr_existing_or_new [] [(KStr "ASCII", VInt 660)] "ASCII" (VInt 0)).
Defined.

(** The claim as stated fails on a name the class defines: [cfg.items = 5]
    on a store with an item [items] overwrites the item, and [cfg.items]
    still is the method of [dict]. *)
Lemma setattr_then_member_read_shadowed :
  Dict.contains (KStr "items") [(KStr "items", VInt 1)] = true
  /\ Config.__setattr__ (VConfig [] [(KStr "items", VInt 1)]) "items" (VInt 5)
     = VConfig [] [(KStr "items", VInt 5)]
  /\ Config.__getitem__ [(KStr "items", VInt 5)] (KStr "items") = Ok (VInt 5)
  /\ Config.getattr (VConfig [] [(KStr "items", VInt 5)]) "items" = Ok (VClassObj "items")
  /\ Config.getattr (VConfig [] [(KStr "items", VInt 5)]) "items" <> Ok (VInt 5).
Proof. repeat split; try reflexivity. discriminate. Qed.

(** ** The traversal of the template *)

Lemma on_error_appends (m : value) (info : formatting_info) (log log' : list report) :
  Validate.on_error m info log = Ok log' -> exists s, log' = log ++ [(s, info)].
Proof.
  unfold Validate.on_error. destruct m as [[| | |s]| | |]; try discriminate.
  intros H. inversion H. now exists s.
Qed.

Section LoopFacts.
Import Validate.
Variable rec :
  template -> value -> value -> string -> list report -> list report * outcome bool.
Variables (self error_msgs : value) (path : string).


Lemma template_loop_keeps_log (fields : list (key * template)) :
  Forall (fun kt => forall s m p, keeps_log (rec (snd kt) s m p)) fields ->
  forall res info, keeps_log (template_loop rec self error_msgs path fields res info).
Proof.
  unfold keeps_log.
  induction fields as [|[k t] rest IH]; intros Hrec res info log; simpl.
  - exists []. now rewrite app_nil_r.
  - inversion Hrec as [|? ? Hhead Hrest]; subst. simpl in Hhead.
    specialize (IH Hrest).
    assert (forall m i r,
               exists tail,
                 fst (match (x <- m ;; on_error x i log) with
                      | Ok log' => template_loop rec self error_msgs path rest r i log'
                      | Raise e => (log, Raise e)
                      end) = log ++ tail) as Hreport.
    { intros m i r. destruct m as [x|e]; simpl; [|exists []; now rewrite app_nil_r].
      destruct (on_error x i log) as [log'|e] eqn:E; [|exists []; now rewrite app_nil_r].
      apply on_error_appends in E. destruct E as [s ->].
      destruct (IH r i (log ++ [(s, i)])) as [tail ->].
      exists ((s, i) :: tail). now rewrite <- app_assoc. }
    destruct (Config.getattr self (identifier k)) as [attr|e].
    + destruct t as [c|sub].
      * destruct (_check attr c) as [[|]|e]; [apply IH | apply Hreport |].
        exists []. now rewrite app_nil_r.
      * destruct (negb (is_config attr)); [apply Hreport|].
        match goal with
        | |- context [match ?m with Ok _ => _ | Raise _ => _ end] => destruct m as [msgs|e]
        end; [|exists []; now rewrite app_nil_r].
        destruct (Hhead attr msgs (child_path path k) log) as [tail1 Htail1].
        destruct (rec (TNested sub) attr msgs (child_path path k) log) as [log1 [[|]|e]];
          simpl in Htail1; subst log1.
        -- destruct (IH res (set_name info k) (log ++ tail1)) as [tail2 ->].
           exists (tail1 ++ tail2). now rewrite app_assoc.
        -- destruct (IH false (set_name info k) (log ++ tail1)) as [tail2 ->].
           exists (tail1 ++ tail2). now rewrite app_assoc.
        -- now exists tail1.
    + destruct e; try (exists []; now rewrite app_nil_r). apply Hreport.
Qed.
End LoopFacts.

Lemma follows_template_keeps_log (t : template) :
  forall self error_msgs path,
    keeps_log (Validate._follows_template t self error_msgs path).
Proof.
  induction t as [c|fields IH] using template_nested_ind; intros self error_msgs path.
  - intros log. exists []. simpl. now rewrite app_nil_r.
  - intros log. simpl. now apply template_loop_keeps_log.
Qed.



(** A scalar where the template nests, then a field that is simply
    absent: both are reported as missing, and the nested field [b] is never
    looked at. *)
Example scalar_under_nested_template :
  Validate.follows_template (VConfig [] [(KStr "a", VInt 1)])
    (TNested [(KStr "a", TNested [(KStr "b", TCheck (CType TInt))]);
              (KStr "c", TCheck (CType TInt))])
    (VDict [])
  = ([("{path}.{name} is missing.",
       {| fi_missing := true; fi_name := Some (KStr "a");
          fi_path := ""; fi_value := VNone |});
      ("{path}.{name} is missing.",
       {| fi_missing := true; fi_name := Some (KStr "c");
          fi_path := ""; fi_value := VNone |})],
     Ok false).
Proof. reflexivity. Qed.

(** ** Filling in defaults *)

Lemma extends_refl (v : value) : extends v v.
Proof.
  induction v as [s|n|d IH|a d IHa IHd] using value_nested_ind;
    try (now apply extends_same).
  apply extends_config. intros k x Hget. exists x. split; [exact Hget|].
  rewrite Forall_forall in IHd. exact (IHd (k, x) (get_in k x d Hget)).
Qed.

Lemma extends_trans (v1 : value) :
  forall v2 v3, extends v1 v2 -> extends v2 v3 -> extends v1 v3.
Proof.
  induction v1 as [s|n|d IH|a d IHa IHd] using value_nested_ind;
    intros v2 v3 H12 H23;
    try (inversion H12; subst; exact H23).
  inversion H12 as [v Hv|a' d0 d' Hitems]; subst; [discriminate|].
  inversion H23 as [v Hv|a' d0 d'' Hitems']; subst; [discriminate|].
  apply extends_config. intros k x Hget.
  destruct (Hitems k x Hget) as (x' & Hget' & Hx).
  destruct (Hitems' k x' Hget') as (x'' & Hget'' & Hx').
  exists x''. split; [exact Hget''|].
  rewrite Forall_forall in IHd.
  exact (IHd (k, x) (get_in k x d Hget) x' x'' Hx Hx').
Qed.

Lemma extends_items_refl (d : dict) : extends_items d d.
Proof. intros k x H. exists x. split; [exact H | apply extends_refl]. Qed.

Lemma extends_items_trans (d1 d2 d3 : dict) :
  extends_items d1 d2 -> extends_items d2 d3 -> extends_items d1 d3.
Proof.
  intros H12 H23 k x Hget.
  destruct (H12 k x Hget) as (x' & Hget' & Hx).
  destruct (H23 k x' Hget') as (x'' & Hget'' & Hx').
  exists x''. split; [exact Hget''|]. eapply extends_trans; eassumption.
Qed.

Lemma extends_items_set_absent (d : dict) (k : key) (v : value) :
  Dict.get k d = None -> extends_items d (Dict.set k v d).
Proof.
  intros Hnone k' x Hget. exists x. split; [|apply extends_refl].
  rewrite get_set_other; [exact Hget|]. congruence.
Qed.

Lemma extends_items_set_nested (d : dict) (k : key) (x x' : value) :
  Dict.get k d = Some x -> extends x x' -> extends_items d (Dict.set k x' d).
Proof.
  intros Hx Hext k' y Hget.
  destruct (key_eqb k k') eqn:E.
  - apply key_eqb_eq in E. subst k'. exists x'. rewrite get_set_same.
    split; [reflexivity|]. congruence.
  - apply key_eqb_neq in E. exists y. rewrite get_set_other by assumption.
    split; [exact Hget | apply extends_refl].
Qed.

(** [update({k: c})] with [k] absent sets one new item, or stops. *)
Lemma update_single (d : dict) (k : key) (c : value) :
  exists r,
    Config.update_items d (VDict [(k, c)]) = r
    /\ (r = (d, snd r) \/
        exists c', r = (Dict.set (KStr (identifier k)) c' d, None)
                   /\ stored c = Ok c').
Proof.
  eexists. split; [reflexivity|].
  unfold Config.update_items, stored. simpl.
  destruct (is_str_or_int k); [|now left].
  destruct (is_dict c).
  - destruct (Config.build c) as [c'|e]; [|now left].
    right. now exists c'.
  - right. now exists c.
Qed.

Lemma getitem_contains (d : dict) (k : key) :
  Dict.contains k d = true ->
  exists y, Dict.get k d = Some y /\ Config.__getitem__ d k = Ok y.
Proof.
  intros H. apply contains_true in H. destruct H as [y Hy].
  exists y. split; [exact Hy|]. unfold Config.__getitem__. now rewrite Hy.
Qed.

Lemma update_single_extends (d : dict) (k : key) (c : value) :
  Dict.contains (KStr (identifier k)) d = false ->
  extends_items d (fst (Config.update_items d (VDict [(KStr (identifier k), c)]))).
Proof.
  intros Habsent.
  destruct (update_single d (KStr (identifier k)) c) as (r & Hr & [Hsame | (c' & Hset & _)]).
  - rewrite Hr, Hsame. apply extends_items_refl.
  - rewrite Hr, Hset, identifier_idem. simpl.
    apply extends_items_set_absent. now apply contains_false.
Qed.

Lemma continue_extends (r : dict * option exn) (f : dict -> dict * option exn) (d : dict) :
  extends_items d (fst r) ->
  (forall d1, extends_items d1 (fst (f d1))) ->
  extends_items d (fst (match r with
                        | (s, None) => f s
                        | (s, Some e) => (s, Some e)
                        end)).
Proof.
  destruct r as [s [e|]]; simpl; intros H Hf; [exact H|].
  eapply extends_items_trans; [exact H | apply Hf].
Qed.

Lemma set_defaults_loop_extends (rec : value -> dict -> dict * option exn)
    (l : dict) :
  Forall (fun kv => forall d, extends_items d (fst (rec (snd kv) d))) l ->
  forall d, extends_items d (fst (Config.set_defaults_loop rec l d)).
Proof.
  induction l as [|[k v] rest IH]; intros Hrec d; [apply extends_items_refl|].
  inversion Hrec as [|? ? Hhead Hrest]; subst. simpl in Hhead.
  specialize (IH Hrest).
  cbn [Config.set_defaults_loop].
  destruct (is_str_or_int k); [|apply extends_items_refl].
  destruct (is_dict v).
  - destruct (Dict.contains (KStr (identifier k)) d) eqn:Hc; cbn [negb].
    + destruct (getitem_contains d _ Hc) as (y & Hy & Hgi). rewrite Hgi.
      destruct y as [s|n|dy|a dn]; try apply extends_items_refl.
      specialize (Hhead dn).
      destruct (rec v dn) as [d' e]. simpl in Hhead.
      assert (extends_items d (Dict.set (KStr (identifier k)) (VConfig a d') d)) as Hstep.
      { eapply extends_items_set_nested; [exact Hy|]. now apply extends_config. }
      destruct e as [e|]; [exact Hstep|].
      eapply extends_items_trans; [exact Hstep | apply IH].
    + destruct (Config.build v) as [c|e]; [|apply extends_items_refl].
      apply (continue_extends _ (Config.set_defaults_loop rec rest));
        [now apply update_single_extends | exact IH].
  - destruct (Dict.contains (KStr (identifier k)) d) eqn:Hc; cbn [negb].
    + apply IH.
    + apply (continue_extends _ (Config.set_defaults_loop rec rest));
        [now apply update_single_extends | exact IH].
Qed.

Lemma set_defaults_items_extends (defaults : value) :
  forall d, extends_items d (fst (Config.set_defaults_items defaults d)).
Proof.
  induction defaults as [s|n|l IH|a l IHa IH] using value_nested_ind; intros d;
    try apply extends_items_refl;
    now apply set_defaults_loop_extends.
Qed.

(** C2.  Whatever the store and the defaults, and whether the call returns
    or raises, [set_defaults] leaves the store extended: its instance state
    and every item that is not a nested [Config] are unchanged (also when
    the defaults have a dictionary under that name), and an item that is a
    nested [Config] is extended in the same sense. *)
Theorem set_defaults_keeps_present_fields :
  forall self defaults : value,
    extends self (fst (Config.set_defaults self defaults))
    /\ forall (a d : dict) (k : key) (x : value),
         self = VConfig a d ->
         Dict.get k d = Some x ->
         is_config x = false ->
         exists d',
           fst (Config.set_defaults self defaults) = VConfig a d'
           /\ Dict.get k d' = Some x.
Proof.
  intros self defaults.
  assert (forall a d,
             fst (Config.set_defaults (VConfig a d) defaults)
             = VConfig a (fst (Config.set_defaults_items defaults d))) as Hfst.
  { intros a d. simpl. now destruct (Config.set_defaults_items defaults d). }
  split.
  - destruct self as [s|n|d|a d]; try (now apply extends_same).
    rewrite Hfst. apply extends_config. apply set_defaults_items_extends.
  - intros a d k x -> Hget Hx. rewrite Hfst.
    exists (fst (Config.set_defaults_items defaults d)). split; [reflexivity|].
    destruct (set_defaults_items_extends defaults d k x Hget) as (x' & Hget' & Hext).
    inversion Hext; subst; [exact Hget' | discriminate].
Qed.

Lemma set_defaults_keeps_present_fields_witness :
  extends (VConfig [] [(KStr "a", VInt 1)])
    (fst (Config.set_defaults (VConfig [] [(KStr "a", VInt 1)])
            (VDict [(KStr "a", VDict [(KStr "b", VInt 2)]); (KStr "c", VInt 3)])))
  /\ forall (a d : dict) (k : key) (x : value),
       VConfig [] [(KStr "a", VInt 1)] = VConfig a d ->
       Dict.get k d = Some x ->
       is_config x = false ->
       exists d',
         fst (Config.set_defaults (VConfig [] [(KStr "a", VInt 1)])
                (VDict [(KStr "a", VDict [(KStr "b", VInt 2)]); (KStr "c", VInt 3)]))
         = VConfig a d'
         /\ Dict.get k d' = Some x.
Proof.
  exact (set_defaults_keeps_present_fields (VConfig [] [(KStr "a", VInt 1)])
           (VDict [(KStr "a", VDict [(KStr "b", VInt 2)]); (KStr "c", VInt 3)])).
Defined.

(** A dictionary of defaults under a field that holds a scalar: the scalar
    stays, and the call stops there with [AttributeError]. *)
Example set_defaults_nested_over_scalar :
  Config.set_defaults (VConfig [] [(KStr "a", VInt 1)])
    (VDict [(KStr "a", VDict [(KStr "b", VInt 2)]); (KStr "c", VInt 3)])
  = (VConfig [] [(KStr "a", VInt 1)], Some (AttributeError "set_defaults")).
Proof. reflexivity. Qed.

(** The demonstration: defaults complete a nested store without
    overriding. *)
Example set_defaults_demo :
  Config.set_defaults
    (VConfig [] [(KStr "b", VConfig [] [(KStr "ASCII", VInt 89)])])
    (VDict [(KStr "b", VDict [(KStr "ASCII", VInt 98); (KStr "kind", VStr "alpha");
                              (KStr "case", VStr "lower")])])
  = (VConfig [] [(KStr "b", VConfig [] [(KStr "ASCII", VInt 89);
                                        (KStr "kind", VStr "alpha");
                                        (KStr "case", VStr "lower")])],
     None).
Proof. reflexivity. Qed.

(** ** Idempotence of [set_defaults] *)

Lemma nodupb_cons (x : string) (l : list string) :
  nodupb (x :: l) = true <-> ~ In x l /\ nodupb l = true.
Proof.
  simpl. rewrite andb_true_iff, negb_true_iff. split; intros [H1 H2]; split; auto.
  - intros Hin. assert (existsb (String.eqb x) l = true) as E.
    { apply existsb_exists. exists x. split; [exact Hin | apply String.eqb_refl]. }
    congruence.
  - destruct (existsb (String.eqb x) l) eqn:E; [|reflexivity].
    apply existsb_exists in E. destruct E as (y & Hin & Hy).
    apply String.eqb_eq in Hy. subst. contradiction.
Qed.

Lemma distinct_names_items (l : dict) :
  (fix all (l : dict) : bool :=
     match l with
     | [] => true
     | kv :: l' => distinct_names (snd kv) && all l'
     end) l = true
  <-> Forall (fun kv => distinct_names (snd kv) = true) l.
Proof.
  induction l as [|kv l IH].
  - split; [constructor | reflexivity].
  - rewrite andb_true_iff, IH. split.
    + intros [H1 H2]. now constructor.
    + intros H. now inversion H.
Qed.

Lemma not_in_names (k : key) (v : value) (l : dict) (s : string) :
  ~ In s (names ((k, v) :: l)) -> identifier k <> s /\ ~ In s (names l).
Proof. simpl. tauto. Qed.

(** What the loops leave alone: the names they do not go through. *)
Lemma update_loop_frame (mk : value -> outcome value) (l : dict) :
  forall (acc d : dict) (e : option exn) (s : string),
    Config.update_loop mk l acc = (d, e) ->
    ~ In s (names l) ->
    Dict.get (KStr s) d = Dict.get (KStr s) acc.
Proof.
  induction l as [|[k v] rest IH]; intros acc d e s Hrun Hs.
  - simpl in Hrun. now inversion Hrun.
  - apply not_in_names in Hs. destruct Hs as [Hk Hrest].
    cbn [Config.update_loop] in Hrun.
    destruct (is_str_or_int k); [|now inversion Hrun].
    assert (forall c, Dict.get (KStr s) (Dict.set (KStr (identifier k)) c acc)
                      = Dict.get (KStr s) acc) as Hset.
    { intros c. apply get_set_other. congruence. }
    destruct (is_dict v).
    + destruct (mk v) as [c|e']; [|now inversion Hrun].
      rewrite (IH _ _ _ _ Hrun Hrest). apply Hset.
    + rewrite (IH _ _ _ _ Hrun Hrest). apply Hset.
Qed.

Lemma update_single_frame (d d' : dict) (k : key) (c : value) (e : option exn) (s : string) :
  Config.update_items d (VDict [(KStr (identifier k), c)]) = (d', e) ->
  identifier k <> s ->
  Dict.get (KStr s) d' = Dict.get (KStr s) d.
Proof.
  intros Hrun Hs. unfold Config.update_items in Hrun. simpl items_of in Hrun.
  apply (update_loop_frame _ _ _ _ _ s Hrun).
  simpl. rewrite identifier_idem. tauto.
Qed.

Lemma set_defaults_loop_frame (rec : value -> dict -> dict * option exn) (l : dict) :
  forall (d d' : dict) (e : option exn) (s : string),
    Config.set_defaults_loop rec l d = (d', e) ->
    ~ In s (names l) ->
    Dict.get (KStr s) d' = Dict.get (KStr s) d.
Proof.
  induction l as [|[k v] rest IH]; intros d d' e s Hrun Hs.
  - simpl in Hrun. now inversion Hrun.
  - apply not_in_names in Hs. destruct Hs as [Hk Hrest].
    cbn [Config.set_defaults_loop] in Hrun.
    destruct (is_str_or_int k); [|now inversion Hrun].
    assert (forall c, Dict.get (KStr s) (Dict.set (KStr (identifier k)) c d)
                      = Dict.get (KStr s) d) as Hset.
    { intros c. apply get_set_other. congruence. }
    assert (forall c d1 e1,
               Config.update_items d (VDict [(KStr (identifier k), c)]) = (d1, e1) ->
               match e1 with
               | None => Config.set_defaults_loop rec rest d1
               | Some e2 => (d1, Some e2)
               end = (d', e) ->
               Dict.get (KStr s) d' = Dict.get (KStr s) d) as Hupd.
    { intros c d1 e1 H1 H2.
      rewrite <- (update_single_frame _ _ _ _ _ _ H1 Hk).
      destruct e1; [now inversion H2 | exact (IH _ _ _ _ H2 Hrest)]. }
    destruct (is_dict v).
    + destruct (negb (Dict.contains (KStr (identifier k)) d)).
      * destruct (Config.build v) as [c|e']; [|now inversion Hrun].
        destruct (Config.update_items d (VDict [(KStr (identifier k), c)])) as [d1 e1] eqn:H1.
        apply (Hupd c d1 e1 H1). now destruct e1.
      * destruct (Config.__getitem__ d (KStr (identifier k))) as [[ | | |a dn]|e'];
          try (now inversion Hrun).
        destruct (rec v dn) as [dn' [e'|]].
        -- inversion Hrun; subst. apply Hset.
        -- rewrite (IH _ _ _ _ Hrun Hrest). apply Hset.
    + destruct (negb (Dict.contains (KStr (identifier k)) d)).
      * destruct (Config.update_items d (VDict [(KStr (identifier k), v)])) as [d1 e1] eqn:H1.
        apply (Hupd v d1 e1 H1). now destruct e1.
      * exact (IH _ _ _ _ Hrun Hrest).
Qed.

Lemma build_items (v : value) (l : dict) :
  items_of v = Some l ->
  Config.build v
  = match Config.update_loop Config.build l [] with
    | (d, None) => Ok (VConfig [] d)
    | (_, Some e) => Raise e
    end.
Proof. destruct v; simpl; intros H; inversion H; reflexivity. Qed.

Lemma build_not_dict (v : value) :
  items_of v = None -> Config.build v = Raise (AttributeError "items").
Proof. destruct v; simpl; intros H; inversion H; reflexivity. Qed.

(** [Config(v)], with the empty defaults of the signature, is [build]. *)
Lemma init_is_build (v : value) :
  Config.__init__ v (VDict []) = Config.build v.
Proof.
  unfold Config.__init__, Config.update, Config.update_items.
  destruct (items_of v) as [l|] eqn:Hl.
  - rewrite (build_items v l Hl).
    destruct (Config.update_loop Config.build l []) as [d [e|]]; reflexivity.
  - now rewrite (build_not_dict v Hl).
Qed.

Lemma keys_set (k : key) (v : value) (d : dict) :
  Dict.keys (Dict.set k v d) = Dict.keys d
  \/ (~ In k (Dict.keys d) /\ Dict.keys (Dict.set k v d) = Dict.keys d ++ [k]).
Proof.
  destruct (Dict.get k d) as [x|] eqn:E.
  - left. apply set_present_keys. apply contains_true. now exists x.
  - right. split; [now apply get_none_not_in|].
    rewrite (set_absent k v d E). unfold Dict.keys. now rewrite map_app.
Qed.

Lemma forall_set (P : key * value -> Prop) (k : key) (v : value) (d : dict) :
  (forall k', P (k', v)) -> Forall P d -> Forall P (Dict.set k v d).
Proof.
  intros Hv Hd. induction d as [|[k' v'] d IH]; cbn [Dict.set].
  - constructor; [apply Hv | constructor].
  - inversion Hd; subst.
    destruct (key_eqb k k'); constructor; auto.
Qed.

Lemma canonical_set (d : dict) (s : string) (v : value) :
  canonical_items d -> normal s -> stored v = Ok v ->
  canonical_items (Dict.set (KStr s) v d).
Proof.
  intros (Hnd & Hnk & Hst) Hs Hv. repeat split.
  - destruct (keys_set (KStr s) v d) as [-> | [Hnot ->]]; [exact Hnd|].
    apply NoDup_app; [exact Hnd | repeat constructor; intros [] | ].
    intros x Hx [<-|[]]. contradiction.
  - now apply normal_keys_set.
  - apply forall_set; [intros; exact Hv | exact Hst].
Qed.

Lemma canonical_nil : canonical_items [].
Proof. repeat split; constructor. Qed.

Lemma update_loop_canonical (l : dict) :
  Forall (fun kv => forall c, Config.build (snd kv) = Ok c -> Config.build c = Ok c) l ->
  forall acc d,
    canonical_items acc ->
    Config.update_loop Config.build l acc = (d, None) ->
    canonical_items d.
Proof.
  induction l as [|[k v] rest IH]; intros Hall acc d Hacc Hrun.
  - simpl in Hrun. inversion Hrun; subst. exact Hacc.
  - inversion Hall as [|? ? Hhead Hrest]; subst. simpl in Hhead.
    cbn [Config.update_loop] in Hrun.
    destruct (is_str_or_int k); [|discriminate].
    destruct (is_dict v) eqn:Hv.
    + destruct (Config.build v) as [c|e] eqn:Hb; [|discriminate].
      apply (IH Hrest _ _ (canonical_set acc _ c Hacc (identifier_normal k)
                             ltac:(unfold stored; destruct (is_dict c); auto)) Hrun).
    + apply (IH Hrest _ _ (canonical_set acc _ v Hacc (identifier_normal k)
                             ltac:(unfold stored; now rewrite Hv)) Hrun).
Qed.

(** Rebuilding a canonical dictionary gives it back. *)
Lemma update_loop_rebuild (d : dict) :
  forall acc,
    canonical_items d ->
    (forall k, In k (Dict.keys d) -> ~ In k (Dict.keys acc)) ->
    Config.update_loop Config.build d acc = (acc ++ d, None).
Proof.
  induction d as [|[k y] rest IH]; intros acc (Hnd & Hnk & Hst) Hdisj.
  - simpl. now rewrite app_nil_r.
  - inversion Hnd as [|? ? Hk Hnd']; subst.
    inversion Hnk as [|? ? (s & Hs & Hnorm) Hnk']; subst. simpl in Hs. subst k.
    inversion Hst as [|? ? Hy Hst']; subst. simpl in Hy.
    cbn [Config.update_loop is_str_or_int].
    rewrite (identifier_of_normal s Hnorm).
    assert (Dict.set (KStr s) y acc = acc ++ [(KStr s, y)]) as Hset.
    { apply set_absent, get_none_not_in, Hdisj. now left. }
    assert (Config.update_loop Config.build rest (acc ++ [(KStr s, y)])
            = ((acc ++ [(KStr s, y)]) ++ rest, None)) as Hrest.
    { apply IH; [now repeat split|].
      intros k Hin. unfold Dict.keys. rewrite map_app, in_app_iff. simpl.
      intros [Hacc | [<- | []]].
      - apply (Hdisj k); [now right | exact Hacc].
      - contradiction. }
    rewrite <- app_assoc in Hrest. simpl in Hrest.
    unfold stored in Hy. destruct (is_dict y).
    + now rewrite Hy, Hset.
    + now rewrite Hset.
Qed.

(** [Config(v)] is a canonical store, and [Config] of it is the same
    store. *)
Lemma build_canonical (v : value) :
  forall c,
    Config.build v = Ok c ->
    (exists d, c = VConfig [] d /\ canonical_items d) /\ Config.build c = Ok c.
Proof.
  induction v as [s|n|l IH|a l IHa IH] using value_nested_ind; intros c Hb;
    try discriminate.
  all: match type of Hb with
       | Config.build ?v = _ => rewrite (build_items v l eq_refl) in Hb
       end;
    destruct (Config.update_loop Config.build l []) as [d [e|]] eqn:Hrun;
    [discriminate|]; inversion Hb; subst c;
    assert (canonical_items d) as Hcan
      by (apply (update_loop_canonical l) with (acc := []);
          [ eapply Forall_impl; [|exact IH]; intros kv H c Hc; now apply H
          | apply canonical_nil | exact Hrun ]);
    split; [now exists d|];
    rewrite (build_items (VConfig [] d) d eq_refl);
    rewrite (update_loop_rebuild d [] Hcan) by (intros k _ []);
    reflexivity.
Qed.

(** With distinct names, [update] stores every item under its name. *)
Lemma update_loop_stores (l : dict) :
  forall acc d,
    nodupb (names l) = true ->
    Config.update_loop Config.build l acc = (d, None) ->
    Forall (fun kv =>
              is_str_or_int (fst kv) = true
              /\ exists c, stored (snd kv) = Ok c
                           /\ Dict.get (KStr (identifier (fst kv))) d = Some c) l.
Proof.
  induction l as [|[k v] rest IH]; intros acc d Hnd Hrun; [constructor|].
  change (names ((k, v) :: rest)) with (identifier k :: names rest) in Hnd.
  apply nodupb_cons in Hnd. destruct Hnd as [Hk Hnd].
  cbn [Config.update_loop] in Hrun.
  destruct (is_str_or_int k) eqn:Hsi; [|discriminate].
  assert (forall c,
             stored v = Ok c ->
             Config.update_loop Config.build rest (Dict.set (KStr (identifier k)) c acc)
             = (d, None) ->
             Forall (fun kv =>
                       is_str_or_int (fst kv) = true
                       /\ exists c, stored (snd kv) = Ok c
                                    /\ Dict.get (KStr (identifier (fst kv))) d = Some c)
                    ((k, v) :: rest)) as Hstep.
  { intros c Hc Hrest. constructor; [|exact (IH _ _ Hnd Hrest)].
    split; [exact Hsi|]. exists c. split; [exact Hc|]. simpl.
    rewrite (update_loop_frame _ _ _ _ _ _ Hrest Hk). apply get_set_same. }
  unfold stored in Hstep. destruct (is_dict v).
  - destruct (Config.build v) as [c|e]; [|discriminate]. now apply (Hstep c).
  - now apply (Hstep v).
Qed.

(** A loop over covered items changes nothing. *)
Lemma set_defaults_loop_identity (rec : value -> dict -> dict * option exn)
    (l : dict) (d : dict) :
  Forall (covered rec d) l -> Config.set_defaults_loop rec l d = (d, None).
Proof.
  induction 1 as [|[k x] rest (Hsi & y & Hy & Hnested) _ IH]; [reflexivity|].
  simpl in Hsi, Hy, Hnested. cbn [Config.set_defaults_loop].
  rewrite Hsi.
  assert (Dict.contains (KStr (identifier k)) d = true) as Hc
    by (apply contains_true; now exists y).
  rewrite Hc. cbn [negb].
  destruct (is_dict x); [|exact IH].
  destruct (Hnested eq_refl) as (a & dn & -> & Hrec).
  unfold Config.__getitem__. rewrite Hy, Hrec.
  now rewrite (set_get_same _ _ _ Hy).
Qed.

Lemma distinct_names_inv (v : value) (l : dict) :
  items_of v = Some l ->
  distinct_names v = true ->
  nodupb (names l) = true /\ Forall (fun kv => distinct_names (snd kv) = true) l.
Proof.
  destruct v; simpl; intros H; inversion H; subst;
    rewrite andb_true_iff, distinct_names_items; tauto.
Qed.

Lemma set_defaults_items_unfold (v : value) (l : dict) (d : dict) :
  items_of v = Some l ->
  Config.set_defaults_items v d
  = Config.set_defaults_loop Config.set_defaults_items l d.
Proof. destruct v; simpl; intros H; inversion H; reflexivity. Qed.

(** The store built from [v] has nothing to take from [v] as defaults. *)
Lemma build_covers (v : value) :
  distinct_names v = true ->
  forall dn,
    Config.build v = Ok (VConfig [] dn) ->
    Config.set_defaults_items v dn = (dn, None).
Proof.
  induction v as [s|n|l IH|a l IHa IH] using value_nested_ind; intros Hd dn Hb;
    try discriminate.
  all: match type of Hb with
       | Config.build ?v = _ =>
           rewrite (build_items v l eq_refl) in Hb;
           rewrite (set_defaults_items_unfold v l dn eq_refl);
           destruct (distinct_names_inv v l eq_refl Hd) as [Hnd Hall]
       end;
    destruct (Config.update_loop Config.build l []) as [d [e|]] eqn:Hrun;
    [discriminate|]; inversion Hb; subst d;
    apply set_defaults_loop_identity;
    pose proof (update_loop_stores l [] dn Hnd Hrun) as Hst;
    rewrite Forall_forall in *; intros [k x] Hin;
    destruct (Hst _ Hin) as (Hsi & c & Hc & Hget);
    (split; [exact Hsi|]); exists c; (split; [exact Hget|]);
    simpl; intros Hx; unfold stored in Hc; simpl in Hc; rewrite Hx in Hc;
    destruct (build_canonical x c Hc) as [(dx & -> & _) _];
    exists [], dx; (split; [reflexivity|]);
    exact (IH _ Hin (Hall _ Hin) dx Hc).
Qed.

(** After a run that returned, with distinct names, every item of the
    defaults is covered by the store reached. *)
Lemma set_defaults_loop_covers (l : dict) :
  Forall (fun kv =>
            distinct_names (snd kv) = true ->
            forall d d1,
              Config.set_defaults_items (snd kv) d = (d1, None) ->
              Config.set_defaults_items (snd kv) d1 = (d1, None)) l ->
  Forall (fun kv => distinct_names (snd kv) = true) l ->
  nodupb (names l) = true ->
  forall d d1,
    Config.set_defaults_loop Config.set_defaults_items l d = (d1, None) ->
    Forall (covered Config.set_defaults_items d1) l.
Proof.
  induction l as [|[k x] rest IH]; intros Hrec Hall Hnd d d1 Hrun; [constructor|].
  inversion Hrec as [|? ? Hhead Hrec']; subst. simpl in Hhead.
  inversion Hall as [|? ? Hx Hall']; subst. simpl in Hx.
  change (names ((k, x) :: rest)) with (identifier k :: names rest) in Hnd.
  apply nodupb_cons in Hnd. destruct Hnd as [Hk Hnd].
  specialize (IH Hrec' Hall' Hnd).
  cbn [Config.set_defaults_loop] in Hrun.
  destruct (is_str_or_int k) eqn:Hsi; [|discriminate].
  (* what the step leaves under the name, and the rest of the run *)
  assert (forall d' y,
             Config.set_defaults_loop Config.set_defaults_items rest d' = (d1, None) ->
             Dict.get (KStr (identifier k)) d' = Some y ->
             (is_dict x = true ->
              exists a dn, y = VConfig a dn
                           /\ Config.set_defaults_items x dn = (dn, None)) ->
             Forall (covered Config.set_defaults_items d1) ((k, x) :: rest)) as Hdone.
  { intros d' y Hrest Hy Hnested. constructor; [|exact (IH _ _ Hrest)].
    split; [exact Hsi|]. exists y. split; [|exact Hnested]. simpl.
    now rewrite (set_defaults_loop_frame _ _ _ _ _ _ Hrest Hk). }
  destruct (Dict.contains (KStr (identifier k)) d) eqn:Hc; cbn [negb] in Hrun.
  - (* the name is in the store *)
    destruct (getitem_contains d _ Hc) as (y & Hy & Hgi).
    destruct (is_dict x) eqn:Hdx.
    + rewrite Hgi in Hrun.
      destruct y as [s|n|dy|a dn]; try discriminate.
      destruct (Config.set_defaults_items x dn) as [dn' [e|]] eqn:Hnest; [discriminate|].
      eapply (Hdone _ _ Hrun); [apply get_set_same|].
      intros _. exists a, dn'. split; [reflexivity|]. exact (Hhead Hx _ _ Hnest).
    + eapply (Hdone _ _ Hrun); [exact Hy | discriminate].
  - (* the name is new *)
    destruct (is_dict x) eqn:Hdx.
    + destruct (Config.build x) as [c|e] eqn:Hb; [|discriminate].
      destruct (build_canonical x c Hb) as [(dx & -> & _) Hcc].
      unfold Config.update_items in Hrun. cbn [items_of Config.update_loop is_str_or_int is_dict] in Hrun.
      rewrite Hcc, identifier_idem in Hrun.
      eapply (Hdone _ _ Hrun); [apply get_set_same|].
      intros _. exists [], dx. split; [reflexivity|]. exact (build_covers x Hx dx Hb).
    + unfold Config.update_items in Hrun. cbn [items_of Config.update_loop is_str_or_int] in Hrun.
      rewrite Hdx, identifier_idem in Hrun.
      eapply (Hdone _ _ Hrun); [apply get_set_same | discriminate].
Qed.

Lemma set_defaults_items_idempotent (v : value) :
  distinct_names v = true ->
  forall d d1,
    Config.set_defaults_items v d = (d1, None) ->
    Config.set_defaults_items v d1 = (d1, None).
Proof.
  induction v as [s|n|l IH|a l IHa IH] using value_nested_ind; intros Hd d d1 Hrun;
    try discriminate.
  all: match type of Hrun with
       | Config.set_defaults_items ?v _ = _ =>
           rewrite (set_defaults_items_unfold v l d eq_refl) in Hrun;
           rewrite (set_defaults_items_unfold v l d1 eq_refl);
           destruct (distinct_names_inv v l eq_refl Hd) as [Hnd Hall]
       end;
    apply set_defaults_loop_identity;
    exact (set_defaults_loop_covers l IH Hall Hnd d d1 Hrun).
Qed.

(** C9, as amended.  When no two keys of one dictionary of the defaults
    normalise to the same name, and [set_defaults] returns, a second call
    with the same defaults returns too and leaves the store as the first
    call left it, at every depth. *)
Theorem set_defaults_idempotent :
  forall self defaults once : value,
    distinct_names defaults = true ->
    Config.set_defaults self defaults = (once, None) ->
    Config.set_defaults once defaults = (once, None).
Proof.
  intros self defaults once Hd Hrun.
  destruct self as [s|n|d|a d]; try discriminate.
  simpl in Hrun.
  destruct (Config.set_defaults_items defaults d) as [d1 e] eqn:H1.
  inversion Hrun; subst. simpl.
  now rewrite (set_defaults_items_idempotent defaults Hd d d1 H1).
Qed.

Lemma set_defaults_idempotent_witness :
  Config.set_defaults
    (VConfig [] [(KStr "b", VConfig [] [(KStr "ASCII", VInt 89);
                                        (KStr "kind", VStr "alpha");
                                        (KStr "case", VStr "lower")]);
                 (KStr "_1337", VStr "x")])
    (VDict [(KStr "b", VDict [(KStr "ASCII", VInt 98); (KStr "kind", VStr "alpha");
                              (KStr "case", VStr "lower")]);
            (KInt 1337, VStr "x")])
  = (VConfig [] [(KStr "b", VConfig [] [(KStr "ASCII", VInt 89);
                                        (KStr "kind", VStr "alpha");
                                        (KStr "case", VStr "lower")]);
                 (KStr "_1337", VStr "x")],
     None).
Proof.
  apply (set_defaults_idempotent
           (VConfig [] [(KStr "b", VConfig [] [(KStr "ASCII", VInt 89)])])).
  - reflexivity.
  - reflexivity.
Defined.

(** The claim as stated fails when two keys of the defaults share a name:
    with [{'k': {'a b': {'x': 1}, 'a_b': {'y': 2}}}] on an empty store, the
    first call builds [k] with [update], where the later key replaces the
    earlier one, and the second call fills [x] into it. *)
Lemma set_defaults_twice_differs :
  exists once twice,
    Config.set_defaults (VConfig [] [])
      (VDict [(KStr "k", VDict [(KStr "a b", VDict [(KStr "x", VInt 1)]);
                                (KStr "a_b", VDict [(KStr "y", VInt 2)])])])
    = (once, None)
    /\ Config.set_defaults once
         (VDict [(KStr "k", VDict [(KStr "a b", VDict [(KStr "x", VInt 1)]);
                                   (KStr "a_b", VDict [(KStr "y", VInt 2)])])])
       = (twice, None)
    /\ once = VConfig [] [(KStr "k", VConfig [] [(KStr "a_b", VConfig [] [(KStr "y", VInt 2)])])]
    /\ twice = VConfig [] [(KStr "k", VConfig [] [(KStr "a_b",
                 VConfig [] [(KStr "y", VInt 2); (KStr "x", VInt 1)])])]
    /\ once <> twice.
Proof.
  do 2 eexists. repeat split; try reflexivity. discriminate.
Qed.

(** ** Validation *)

(** *** Total checks return *)

Section CheckInduction.
Variable P : check -> Prop.
Hypothesis Hlist : forall cs, Forall P cs -> P (CList cs).
Hypothesis Hset : forall cs, Forall P cs -> P (CSet cs).
Hypothesis Htype : forall t, P (CType t).
Hypothesis Hcall : forall f, P (CCallable f).
Hypothesis Htuple : forall t, P (CTuple t).
Hypothesis Hvalue : forall s, P (CValue s).

End CheckInduction.




(** *** Well-formed error messages *)



Lemma descriptor_items (v : value) :
  descriptor v = true ->
  exists d,
    items_of v = Some d
    /\ Forall descr_item d.
Proof.
  unfold descriptor. destruct (items_of v) as [d|]; [|discriminate].
  intros H. exists d. split; [reflexivity|].
  rewrite forallb_forall in H. apply Forall_forall. intros kv Hin.
  specialize (H kv Hin). rewrite !andb_true_iff, negb_true_iff in H.
  destruct H as [[H1 H2] H3]. repeat split; auto.
  intros E. rewrite E in H2. discriminate.
Qed.


Lemma is_str_inv (v : value) : is_str v = true -> exists s, v = VStr s.
Proof. destruct v as [[| | |s]| | |]; try discriminate. intros _. now exists s. Qed.






Lemma build_of_canonical (d : dict) :
  canonical_items d -> Config.build (VConfig [] d) = Ok (VConfig [] d).
Proof.
  intros Hcan. rewrite (build_items (VConfig [] d) d eq_refl).
  rewrite (update_loop_rebuild d [] Hcan) by (intros k _ []).
  reflexivity.
Qed.







(** *** The general errors *)

Lemma general_entries (g : dict) :
  canonical_items g -> descriptor (VConfig [] g) = true ->
  Forall (fun kv => exists s m, kv = (KStr s, VStr m) /\ normal s /\ s <> "_") g.
Proof.
  intros (_ & Hnk & _) Hd.
  destruct (descriptor_items _ Hd) as (d & Hitems & Hall). inversion Hitems; subst d.
  unfold normal_keys in Hnk. rewrite Forall_forall in *.
  intros [k x] Hin. destruct (Hnk _ Hin) as (s & Hs & Hnorm). simpl in Hs. subst k.
  destruct (Hall _ Hin) as (_ & Hne & Hx). simpl in Hne, Hx.
  apply is_str_inv in Hx. destruct Hx as [m ->].
  exists s, m. split; [reflexivity|]. split; [exact Hnorm|].
  now rewrite (identifier_of_normal s Hnorm) in Hne.
Qed.




Lemma general_errors_general : general Config.general_errors.
Proof.
  split; [|split].
  - split; [|split].
    + repeat constructor; simpl; intuition discriminate.
    + repeat constructor; eexists; (split; [reflexivity|]); split; reflexivity.
    + repeat constructor.
  - reflexivity.
  - intros s Hs. unfold reserved in Hs. simpl in Hs.
    repeat match type of Hs with
           | (String.eqb ?a ?b || _)%bool = true =>
               destruct (String.eqb_spec a b) as [E|_];
               [subst s; eexists; reflexivity | simpl in Hs]
           end.
    discriminate.
Qed.

(** With the general errors present, the defaults of the class add
    nothing to them. *)
Lemma general_covered (g : dict) :
  general g ->
  Config.set_defaults_items (VDict Config.general_errors) g = (g, None).
Proof.
  intros (_ & _ & Hfour).
  assert (forall s m, reserved s = true ->
                      covered Config.set_defaults_items g (KStr s, VStr m)) as Hcov.
  { intros s m Hs. split; [reflexivity|]. destruct (Hfour s Hs) as [m' Hm'].
    exists (VStr m'). split; [|discriminate].
    cbn [fst]. revert Hm'. unfold reserved in Hs. simpl in Hs.
    repeat match type of Hs with
           | (String.eqb ?a ?b || _)%bool = true =>
               destruct (String.eqb_spec a b) as [E|_];
               [subst s; intros Hm'; exact Hm' | simpl in Hs]
           end.
    discriminate. }
  apply set_defaults_loop_identity.
  repeat constructor; now apply Hcov.
Qed.

(** *** Preparing the error messages *)

Lemma identifier_underscore : identifier (KStr "_") = "_".
Proof. reflexivity. Qed.

Lemma init_inner (gp : dict) :
  general gp ->
  Config.__init__ (VDict [(KStr "_", VConfig [] gp)])
    (VDict [(KStr "_", VDict Config.general_errors)])
  = Ok (VConfig [] [(KStr "_", VConfig [] gp)]).
Proof.
  intros Hg. pose proof Hg as (Hcan & _ & _).
  unfold Config.__init__, Config.update, Config.update_items.
  cbn [items_of Config.update_loop is_str_or_int is_dict].
  rewrite (build_of_canonical gp Hcan), identifier_underscore.
  cbn [Dict.set].
  unfold Config.set_defaults.
  rewrite (set_defaults_items_unfold (VDict [(KStr "_", VDict Config.general_errors)])
             [(KStr "_", VDict Config.general_errors)] _ eq_refl).
  cbn [Config.set_defaults_loop is_str_or_int is_dict items_of].
  rewrite identifier_underscore.
  cbn [Dict.contains Dict.get key_eqb String.eqb Ascii.eqb Bool.eqb negb
       Config.__getitem__].
  rewrite (general_covered gp Hg).
  reflexivity.
Qed.





(** *** Resolving a message *)



Lemma getattr_plain (d : dict) (name : string) (v : value) :
  Config.class_attr name = None ->
  Dict.get (KStr name) d = Some v ->
  Config.getattr (VConfig [] d) name = Ok v.
Proof.
  intros Hc Hget. cbn [Config.getattr Dict.get]. rewrite Hc.
  unfold Config.__getattr__, Config.__getitem__. now rewrite Hget.
Qed.







(** *** The traversal on a plain store *)












(** Error messages outside the shape of the specification can make the
    preparation fail: a text under [_] is asked for [set_defaults]. *)
Example validation_with_text_descriptor :
  Validate.follows_template (VConfig [] []) (TNested [])
    (VDict [(KStr "_", VStr "oops")])
  = ([], Raise (AttributeError "set_defaults")).
Proof. reflexivity. Qed.

(** The scenario of the specification: [{'_': {'invalid': 'bad'}}] on a
    failing field [x] at the root resolves to the default prefix, [bad],
    and the default suffix. *)
Example scenario_bad :
  Validate.follows_template (VConfig [] [(KStr "x", VInt 1)])
    (TNested [(KStr "x", TCheck (CType TStr))])
    (VDict [(KStr "_", VDict [(KStr "invalid", VStr "bad")])])
  = ([("{path}.{name} bad.",
       {| fi_missing := false; fi_name := Some (KStr "x");
          fi_path := ""; fi_value := VInt 1 |})],
     Ok false).
Proof. reflexivity. Qed.

Lemma check_any_of_all_of_witness :
  Validate._check (VInt 89) (CList [CType TBool; CType TInt]) = Ok true.
Proof.
  destruct (check_any_of_all_of (VInt 89)) as (_ & _ & _ & _ & Htotal & _ & _).
  destruct (Htotal [CType TBool; CType TInt]) as (Hany & _).
  - repeat constructor; eexists; reflexivity.
  - apply Hany. right. left. reflexivity.
Defined.

(** * Further properties *)

(** ** The shape of identifiers *)

Lemma translate_clean (s : string) : clean (Text.translate s).
Proof.
  induction s as [|c s IH]; cbn [clean Text.translate]; [exact I|]. split; [|exact IH].
  unfold Text.trans_table.
  destruct (Text.mem c (Text.punctuation ++ Text.whitespace)) eqn:E; [now left | now right].
Qed.


(** [identifier] returns a name that is not empty, does not start with a
    digit, and has no punctuation or whitespace but underscores. *)
Theorem identifier_shape :
  forall k : key,
    identifier k <> ""
    /\ leading_digit (identifier k) = false
    /\ clean (identifier k).
Proof.
  intros k. destruct (identifier_normal k) as [Hhead Htr].
  split; [|split].
  - intros E. rewrite E in Hhead. exact Hhead.
  - destruct (identifier k); [reflexivity | exact Hhead].
  - rewrite <- Htr. apply translate_clean.
Qed.







(** ** Merging item by item *)

Lemma update_loop_app (mk : value -> outcome value) (l1 l2 : dict) :
  forall acc,
    Config.update_loop mk (l1 ++ l2) acc
    = match Config.update_loop mk l1 acc with
      | (d, None) => Config.update_loop mk l2 d
      | (d, Some e) => (d, Some e)
      end.
Proof.
  induction l1 as [|[k v] l1 IH]; intros acc; [reflexivity|].
  cbn [app Config.update_loop].
  destruct (is_str_or_int k); [|reflexivity].
  destruct (is_dict v); [destruct (mk v); [apply IH | reflexivity] | apply IH].
Qed.

Lemma set_defaults_loop_app (rec : value -> dict -> dict * option exn) (l1 l2 : dict) :
  forall d,
    Config.set_defaults_loop rec (l1 ++ l2) d
    = match Config.set_defaults_loop rec l1 d with
      | (d1, None) => Config.set_defaults_loop rec l2 d1
      | (d1, Some e) => (d1, Some e)
      end.
Proof.
  induction l1 as [|[k v] l1 IH]; intros d; [reflexivity|].
  cbn [app Config.set_defaults_loop].
  destruct (is_str_or_int k); [|reflexivity].
  destruct (is_dict v), (negb (Dict.contains (KStr (identifier k)) d)).
  - destruct (Config.build v) as [c|e]; [|reflexivity].
    destruct (Config.update_items d (VDict [(KStr (identifier k), c)])) as [d1 [e|]];
      [reflexivity | apply IH].
  - destruct (Config.__getitem__ d (KStr (identifier k))) as [[| | |a dn]|e];
      try reflexivity.
    destruct (rec v dn) as [dn' [e|]]; [reflexivity | apply IH].
  - destruct (Config.update_items d (VDict [(KStr (identifier k), v)])) as [d1 [e|]];
      [reflexivity | apply IH].
  - apply IH.
Qed.

(** Merging a dictionary that is two dictionaries one after the other is
    merging the first and then, unless that raised, the second: with
    [update] and with [set_defaults]. *)
Theorem merge_in_sequence :
  forall (self : value) (l1 l2 : dict),
    Config.update self (VDict (l1 ++ l2))
    = match Config.update self (VDict l1) with
      | (s1, None) => Config.update s1 (VDict l2)
      | (s1, Some e) => (s1, Some e)
      end
    /\ Config.set_defaults self (VDict (l1 ++ l2))
       = match Config.set_defaults self (VDict l1) with
         | (s1, None) => Config.set_defaults s1 (VDict l2)
         | (s1, Some e) => (s1, Some e)
         end.
Proof.
  intros self l1 l2. destruct self as [s|n|d|a d]; try (split; reflexivity).
  split.
  - unfold Config.update, Config.update_items. cbn [items_of].
    rewrite update_loop_app.
    now destruct (Config.update_loop Config.build l1 d) as [d1 [e|]].
  - unfold Config.set_defaults. cbn [Config.set_defaults_items].
    rewrite set_defaults_loop_app.
    now destruct (Config.set_defaults_loop Config.set_defaults_items l1 d) as [d1 [e|]].
Qed.

(** A key that is neither text nor an integer stops the merge with
    [TypeError]: the items before it have been merged, the items after it
    are not looked at. *)
Theorem merge_stops_at_bad_key :
  forall (self s1 : value) (l1 l2 : dict) (k : key) (v : value),
    is_str_or_int k = false ->
    (Config.update self (VDict l1) = (s1, None) ->
     Config.update self (VDict (l1 ++ (k, v) :: l2)) = (s1, Some (TypeError k)))
    /\ (Config.set_defaults self (VDict l1) = (s1, None) ->
        Config.set_defaults self (VDict (l1 ++ (k, v) :: l2)) = (s1, Some (TypeError k))).
Proof.
  intros self s1 l1 l2 k v Hk.
  destruct self as [s|n|d|a d]; try (split; discriminate).
  split; intros H.
  - unfold Config.update, Config.update_items in *. cbn [items_of] in *.
    rewrite update_loop_app.
    destruct (Config.update_loop Config.build l1 d) as [d1 e1].
    inversion H; subst. cbn [Config.update_loop]. now rewrite Hk.
  - unfold Config.set_defaults in *. cbn [Config.set_defaults_items] in *.
    rewrite set_defaults_loop_app.
    destruct (Config.set_defaults_loop Config.set_defaults_items l1 d) as [d1 e1].
    inversion H; subst. cbn [Config.set_defaults_loop]. now rewrite Hk.
Qed.

Lemma merge_stops_at_bad_key_witness :
  (Config.update (VConfig [] []) (VDict [(KStr "a", VInt 1)])
   = (VConfig [] [(KStr "a", VInt 1)], None) ->
   Config.update (VConfig [] [])
     (VDict ([(KStr "a", VInt 1)] ++ (KNone, VInt 2) :: [(KStr "b", VInt 3)]))
   = (VConfig [] [(KStr "a", VInt 1)], Some (TypeError KNone)))
  /\ (Config.set_defaults (VConfig [] []) (VDict [(KStr "a", VInt 1)])
      = (VConfig [] [(KStr "a", VInt 1)], None) ->
      Config.set_defaults (VConfig [] [])
        (VDict ([(KStr "a", VInt 1)] ++ (KNone, VInt 2) :: [(KStr "b", VInt 3)]))
      = (VConfig [] [(KStr "a", VInt 1)], Some (TypeError KNone))).
Proof.
  apply (merge_stops_at_bad_key (VConfig [] []) (VConfig [] [(KStr "a", VInt 1)])
           [(KStr "a", VInt 1)] [(KStr "b", VInt 3)] KNone (VInt 2)).
  reflexivity.
Defined.

Lemma update_loop_lookup (l : dict) :
  forall d d',
    Config.update_loop Config.build l d = (d', None) ->
    forall s,
      match last_named s l with
      | Some v => exists c, stored v = Ok c /\ Dict.get (KStr s) d' = Some c
      | None => Dict.get (KStr s) d' = Dict.get (KStr s) d
      end.
Proof.
  induction l as [|[k v] rest IH]; intros d d' Hrun s.
  - simpl in *. now inversion Hrun.
  - cbn [Config.update_loop] in Hrun.
    destruct (is_str_or_int k); [|discriminate].
    assert (exists c, stored v = Ok c
                      /\ Config.update_loop Config.build rest
                           (Dict.set (KStr (identifier k)) c d) = (d', None))
      as (c & Hc & Hrest).
    { unfold stored. destruct (is_dict v).
      - destruct (Config.build v) as [c|e]; [|discriminate]. now exists c.
      - now exists v. }
    specialize (IH _ _ Hrest s). cbn [last_named].
    destruct (last_named s rest) as [v'|]; [exact IH|].
    rewrite IH. destruct (String.eqb_spec (identifier k) s) as [<-|Hne].
    + exists c. split; [exact Hc | apply get_set_same].
    + apply get_set_other. congruence.
Qed.

(** After an [update] that returned, a name holds what the last item of
    that name stored (later keys overwrite earlier ones with the same
    identifier), and a name the dictionary does not mention holds what it
    held before. *)
Theorem update_overwrites_and_frames :
  forall (a d l : dict) (s1 : value),
    Config.update (VConfig a d) (VDict l) = (s1, None) ->
    exists d',
      s1 = VConfig a d'
      /\ forall s,
           match last_named s l with
           | Some v => exists c, stored v = Ok c /\ Dict.get (KStr s) d' = Some c
           | None => Dict.get (KStr s) d' = Dict.get (KStr s) d
           end.
Proof.
  intros a d l s1 H. unfold Config.update, Config.update_items in H.
  cbn [items_of] in H.
  destruct (Config.update_loop Config.build l d) as [d' e] eqn:Hrun.
  inversion H; subst. exists d'. split; [reflexivity|].
  now apply update_loop_lookup.
Qed.

Lemma update_overwrites_and_frames_witness :
  exists d',
    VConfig [] [(KStr "x", VInt 0); (KStr "a_b", VInt 2)] = VConfig [] d'
    /\ forall s,
         match last_named s [(KStr "a b", VInt 1); (KStr "a_b", VInt 2)] with
         | Some v => exists c, stored v = Ok c /\ Dict.get (KStr s) d' = Some c
         | None => Dict.get (KStr s) d' = Dict.get (KStr s) [(KStr "x", VInt 0)]
         end.
Proof.
  apply (update_overwrites_and_frames [] [(KStr "x", VInt 0)]
           [(KStr "a b", VInt 1); (KStr "a_b", VInt 2)]).
  reflexivity.
Defined.

Lemma update_single_scalar (d : dict) (k : key) (v : value) :
  is_dict v = false ->
  Config.update_items d (VDict [(KStr (identifier k), v)])
  = (Dict.set (KStr (identifier k)) v d, None).
Proof.
  intros Hv. unfold Config.update_items.
  cbn [items_of Config.update_loop is_str_or_int]. now rewrite Hv, identifier_idem.
Qed.

Lemma flat_loop_lookup (rec : value -> dict -> dict * option exn) (l : dict) :
  flat l ->
  forall d,
    exists d',
      Config.set_defaults_loop rec l d = (d', None)
      /\ forall s,
           Dict.get (KStr s) d'
           = match Dict.get (KStr s) d with
             | Some y => Some y
             | None => first_named s l
             end.
Proof.
  induction 1 as [|[k v] rest [Hk Hv] _ IH]; intros d.
  - exists d. split; [reflexivity|]. intros s. now destruct (Dict.get (KStr s) d).
  - cbn [fst snd] in Hk, Hv. cbn [Config.set_defaults_loop]. rewrite Hk, Hv.
    destruct (Dict.contains (KStr (identifier k)) d) eqn:Hc; cbn [negb].
    + destruct (IH d) as (d' & Hrun & Hget). exists d'. split; [exact Hrun|].
      intros s. rewrite Hget. cbn [first_named].
      destruct (Dict.get (KStr s) d) eqn:E; [reflexivity|].
      destruct (String.eqb_spec (identifier k) s) as [<-|_]; [|reflexivity].
      apply contains_true in Hc. destruct Hc as [y Hy]. congruence.
    + rewrite (update_single_scalar d k v Hv).
      destruct (IH (Dict.set (KStr (identifier k)) v d)) as (d' & Hrun & Hget).
      exists d'. split; [exact Hrun|].
      intros s. rewrite Hget. cbn [first_named].
      apply contains_false in Hc.
      destruct (String.eqb_spec (identifier k) s) as [<-|Hne].
      * now rewrite get_set_same, Hc.
      * rewrite get_set_other by congruence. reflexivity.
Qed.



Lemma extends_items_contains (d d' : dict) (k : key) :
  extends_items d d' -> Dict.contains k d = true -> Dict.contains k d' = true.
Proof.
  intros He Hc. apply contains_true in Hc. destruct Hc as [x Hx].
  destruct (He k x Hx) as (x' & Hx' & _). apply contains_true. now exists x'.
Qed.

Lemma set_defaults_loop_present (l : dict) :
  forall d d',
    Config.set_defaults_loop Config.set_defaults_items l d = (d', None) ->
    forall k v, In (k, v) l -> Dict.contains (KStr (identifier k)) d' = true.
Proof.
  induction l as [|[k0 v0] rest IH]; intros d d' Hrun k v Hin; [destruct Hin|].
  assert (exists d1,
             Dict.contains (KStr (identifier k0)) d1 = true
             /\ Config.set_defaults_loop Config.set_defaults_items rest d1 = (d', None))
    as (d1 & Hd1 & Hrest).
  { cbn [Config.set_defaults_loop] in Hrun.
    destruct (is_str_or_int k0); [|discriminate].
    assert (forall c d2 e2,
               Config.update_items d (VDict [(KStr (identifier k0), c)]) = (d2, e2) ->
               e2 = None -> Dict.contains (KStr (identifier k0)) d2 = true) as Hupd.
    { intros c d2 e2 H1 ->. unfold Config.update_items in H1.
      cbn [items_of Config.update_loop is_str_or_int] in H1.
      rewrite identifier_idem in H1. apply contains_true.
      destruct (is_dict c); [destruct (Config.build c) as [c'|e]; [|discriminate]|];
        inversion H1; subst; eexists; apply get_set_same. }
    destruct (Dict.contains (KStr (identifier k0)) d) eqn:Hc; cbn [negb] in Hrun.
    - destruct (is_dict v0).
      + destruct (Config.__getitem__ d (KStr (identifier k0))) as [[| | |a dn]|e];
          try discriminate.
        destruct (Config.set_defaults_items v0 dn) as [dn' [e|]]; [discriminate|].
        eexists. split; [|exact Hrun]. apply contains_true. eexists. apply get_set_same.
      + exists d. now split.
    - destruct (is_dict v0).
      + destruct (Config.build v0) as [c|e]; [|discriminate].
        destruct (Config.update_items d (VDict [(KStr (identifier k0), c)]))
          as [d2 [e|]] eqn:H1; [discriminate|].
        exists d2. split; [exact (Hupd _ _ _ H1 eq_refl) | exact Hrun].
      + destruct (Config.update_items d (VDict [(KStr (identifier k0), v0)]))
          as [d2 [e|]] eqn:H1; [discriminate|].
        exists d2. split; [exact (Hupd _ _ _ H1 eq_refl) | exact Hrun]. }
  destruct Hin as [E|Hin].
  - inversion E; subst k0 v0.
    apply (extends_items_contains d1 d' _); [|exact Hd1].
    assert (Forall (fun kv => forall d0,
                        extends_items d0 (fst (Config.set_defaults_items (snd kv) d0)))
                   rest) as Hall
      by (apply Forall_forall; intros kv _; apply set_defaults_items_extends).
    pose proof (set_defaults_loop_extends Config.set_defaults_items rest Hall d1) as He.
    now rewrite Hrest in He.
  - exact (IH _ _ Hrest k v Hin).
Qed.

(** After a [set_defaults] that returned, every key of the defaults, at the
    top level, can be read with [get]. *)
Theorem set_defaults_makes_keys_readable :
  forall (a d l : dict) (s1 : value),
    Config.set_defaults (VConfig a d) (VDict l) = (s1, None) ->
    exists d',
      s1 = VConfig a d'
      /\ forall k v, In (k, v) l -> exists y, Config.__getitem__ d' k = Ok y.
Proof.
  intros a d l s1 H. unfold Config.set_defaults in H.
  cbn [Config.set_defaults_items] in H.
  destruct (Config.set_defaults_loop Config.set_defaults_items l d) as [d' e] eqn:Hrun.
  inversion H; subst. exists d'. split; [reflexivity|].
  intros k v Hin.
  pose proof (set_defaults_loop_present l d d' Hrun k v Hin) as Hc.
  apply contains_true in Hc. destruct Hc as [y Hy].
  unfold Config.__getitem__.
  destruct (Dict.get k d') as [y0|]; [now exists y0|].
  rewrite Hy. now exists y.
Qed.

Lemma set_defaults_makes_keys_readable_witness :
  exists d',
    VConfig [] [(KStr "_1337", VInt 0); (KStr "b", VConfig [] [(KStr "c", VInt 1)])]
    = VConfig [] d'
    /\ forall k v,
         In (k, v) [(KInt 1337, VInt 5); (KStr "b", VDict [(KStr "c", VInt 1)])] ->
         exists y, Config.__getitem__ d' k = Ok y.
Proof.
  apply (set_defaults_makes_keys_readable [] [(KStr "_1337", VInt 0)]
           [(KInt 1337, VInt 5); (KStr "b", VDict [(KStr "c", VInt 1)])]).
  reflexivity.
Defined.

(** ** What the constructor builds *)

Lemma well_formed_config (a d : dict) :
  well_formed (VConfig a d) <-> a = [] /\ well_formed_items d.
Proof.
  cbn [well_formed]. unfold well_formed_items.
  assert ((fix all (l : dict) : Prop :=
             match l with
             | [] => True
             | kv :: l' => well_formed (snd kv) /\ all l'
             end) d <-> Forall (fun kv => well_formed (snd kv)) d) as ->.
  { induction d as [|kv d IH]; [split; [constructor | trivial]|].
    rewrite IH. split; [intros [H1 H2]; now constructor | intros H; now inversion H]. }
  tauto.
Qed.

Lemma well_formed_not_dict (v : value) : is_dict v = false -> well_formed v.
Proof. destruct v; try discriminate; intros _; exact I. Qed.

Lemma well_formed_items_set (d : dict) (s : string) (v : value) :
  well_formed_items d -> normal s -> well_formed v ->
  well_formed_items (Dict.set (KStr s) v d).
Proof.
  intros (Hnd & Hnk & Hw) Hs Hv. split; [|split].
  - destruct (keys_set (KStr s) v d) as [-> | [Hnot ->]]; [exact Hnd|].
    apply NoDup_app; [exact Hnd | repeat constructor; intros [] | ].
    intros x Hx [<-|[]]. contradiction.
  - now apply normal_keys_set.
  - apply forall_set; [intros; exact Hv | exact Hw].
Qed.

Lemma update_loop_well_formed (l : dict) :
  Forall (fun kv => forall c, Config.build (snd kv) = Ok c -> well_formed c) l ->
  forall acc d e,
    well_formed_items acc ->
    Config.update_loop Config.build l acc = (d, e) ->
    well_formed_items d.
Proof.
  induction l as [|[k v] rest IH]; intros Hall acc d e Hacc Hrun.
  - simpl in Hrun. inversion Hrun; subst. exact Hacc.
  - inversion Hall as [|? ? Hhead Hrest]; subst. cbn [snd] in Hhead.
    cbn [Config.update_loop] in Hrun.
    destruct (is_str_or_int k); [|inversion Hrun; subst; exact Hacc].
    destruct (is_dict v) eqn:Hv.
    + destruct (Config.build v) as [c|e'] eqn:Hb; [|inversion Hrun; subst; exact Hacc].
      apply (IH Hrest _ _ _ (well_formed_items_set acc _ c Hacc (identifier_normal k)
                               (Hhead c eq_refl)) Hrun).
    + apply (IH Hrest _ _ _ (well_formed_items_set acc _ v Hacc (identifier_normal k)
                               (well_formed_not_dict v Hv)) Hrun).
Qed.

Lemma build_well_formed (v : value) :
  forall c, Config.build v = Ok c -> well_formed c.
Proof.
  induction v as [s|n|l IH|a l IHa IH] using value_nested_ind; intros c Hb;
    try discriminate.
  all: match type of Hb with
       | Config.build ?v = _ => rewrite (build_items v l eq_refl) in Hb
       end;
    destruct (Config.update_loop Config.build l []) as [d [e|]] eqn:Hrun;
    [discriminate|]; inversion Hb; subst c;
    apply well_formed_config; (split; [reflexivity|]);
    apply (update_loop_well_formed l IH [] d None); [|exact Hrun];
    repeat split; constructor.
Qed.

Lemma update_items_well_formed (d d' : dict) (values : value) (e : option exn) :
  well_formed_items d ->
  Config.update_items d values = (d', e) ->
  well_formed_items d'.
Proof.
  intros Hd Hrun. unfold Config.update_items in Hrun.
  destruct (items_of values) as [l|]; [|inversion Hrun; subst; exact Hd].
  apply (update_loop_well_formed l) with (acc := d) (e := e); [|exact Hd | exact Hrun].
  apply Forall_forall. intros kv _. apply build_well_formed.
Qed.

Lemma getitem_in (d : dict) (k : key) (y : value) :
  Config.__getitem__ d k = Ok y -> exists k', In (k', y) d.
Proof.
  unfold Config.__getitem__.
  destruct (Dict.get k d) as [x|] eqn:E1.
  - intros H. inversion H; subst. exists k. now apply get_in.
  - destruct (Dict.get (KStr (identifier k)) d) as [x|] eqn:E2; [|discriminate].
    intros H. inversion H; subst. eexists. apply get_in. exact E2.
Qed.

Lemma set_defaults_loop_well_formed (rec : value -> dict -> dict * option exn) (l : dict) :
  Forall (fun kv => forall d d' e,
              well_formed_items d -> rec (snd kv) d = (d', e) -> well_formed_items d') l ->
  forall d d' e,
    well_formed_items d ->
    Config.set_defaults_loop rec l d = (d', e) ->
    well_formed_items d'.
Proof.
  induction l as [|[k v] rest IH]; intros Hall d d' e Hd Hrun.
  - simpl in Hrun. inversion Hrun; subst. exact Hd.
  - inversion Hall as [|? ? Hhead Hrest]; subst. cbn [snd] in Hhead.
    specialize (IH Hrest).
    cbn [Config.set_defaults_loop] in Hrun.
    destruct (is_str_or_int k); [|inversion Hrun; subst; exact Hd].
    assert (forall c,
               match Config.update_items d (VDict [(KStr (identifier k), c)]) with
               | (d1, None) => Config.set_defaults_loop rec rest d1
               | (d1, Some e1) => (d1, Some e1)
               end = (d', e) -> well_formed_items d') as Hupd.
    { intros c H.
      destruct (Config.update_items d (VDict [(KStr (identifier k), c)]))
        as [d1 e1] eqn:H1.
      pose proof (update_items_well_formed _ _ _ _ Hd H1) as Hd1.
      destruct e1; [inversion H; subst; exact Hd1 | exact (IH _ _ _ Hd1 H)]. }
    destruct (is_dict v), (negb (Dict.contains (KStr (identifier k)) d)).
    + destruct (Config.build v) as [c|e']; [|inversion Hrun; subst; exact Hd].
      exact (Hupd c Hrun).
    + destruct (Config.__getitem__ d (KStr (identifier k))) as [y|e'] eqn:Hgi;
        [|inversion Hrun; subst; exact Hd].
      destruct y as [s|n|dy|a dn]; try (inversion Hrun; subst; exact Hd).
      destruct (getitem_in _ _ _ Hgi) as [k' Hin].
      destruct Hd as (Hnd & Hnk & Hw). rewrite Forall_forall in Hw.
      pose proof (Hw _ Hin) as Hy. cbn [snd] in Hy.
      apply well_formed_config in Hy. destruct Hy as [-> Hdn].
      destruct (rec v dn) as [dn' e1] eqn:Hrec.
      pose proof (Hhead _ _ _ Hdn Hrec) as Hdn'.
      assert (well_formed_items (Dict.set (KStr (identifier k)) (VConfig [] dn') d)) as Hset.
      { apply well_formed_items_set; [|apply identifier_normal|].
        - split; [exact Hnd | split; [exact Hnk | now apply Forall_forall]].
        - apply well_formed_config. now split. }
      destruct e1; [inversion Hrun; subst; exact Hset | exact (IH _ _ _ Hset Hrun)].
    + exact (Hupd v Hrun).
    + exact (IH _ _ _ Hd Hrun).
Qed.

Lemma set_defaults_items_well_formed (defaults : value) :
  forall d d' e,
    well_formed_items d ->
    Config.set_defaults_items defaults d = (d', e) ->
    well_formed_items d'.
Proof.
  induction defaults as [s|n|l IH|a l IHa IH] using value_nested_ind;
    intros d d' e Hd Hrun;
    try (simpl in Hrun; inversion Hrun; subst; exact Hd).
  all: exact (set_defaults_loop_well_formed Config.set_defaults_items l IH d d' e Hd Hrun).
Qed.

Lemma well_formed_plain (v : value) : well_formed v -> plain v = true.
Proof.
  induction v as [s|n|l IH|a l IHa IH] using value_nested_ind; intros Hw;
    try reflexivity.
  apply well_formed_config in Hw. destruct Hw as [-> (_ & _ & Hall)].
  cbn [plain]. clear IHa. induction l as [|kv l IHl]; [reflexivity|].
  inversion IH; inversion Hall; subst.
  apply andb_true_iff. split; auto.
Qed.

(** A store the constructor returns is well formed at every depth: no
    instance attribute, every key an identifier and there once, every
    nested dictionary a [Config]; so is a well-formed store after
    [update] or [set_defaults], even when they raise. *)
Theorem constructor_builds_well_formed :
  forall values defaults c : value,
    Config.__init__ values defaults = Ok c ->
    well_formed c
    /\ plain c = true
    /\ forall m e,
         (forall c', Config.update c m = (c', e) -> well_formed c')
         /\ (forall c', Config.set_defaults c m = (c', e) -> well_formed c').
Proof.
  assert (forall c m e,
             well_formed c ->
             (forall c', Config.update c m = (c', e) -> well_formed c')
             /\ (forall c', Config.set_defaults c m = (c', e) -> well_formed c')) as Hkeep.
  { intros c m e Hc. destruct c as [s|n|d|a d]; try (split; intros c' H; inversion H; subst; exact Hc).
    apply well_formed_config in Hc. destruct Hc as [-> Hd].
    split; intros c' H.
    - unfold Config.update in H.
      destruct (Config.update_items d m) as [d' e'] eqn:Hrun. inversion H; subst.
      apply well_formed_config. split; [reflexivity|].
      exact (update_items_well_formed _ _ _ _ Hd Hrun).
    - unfold Config.set_defaults in H.
      destruct (Config.set_defaults_items m d) as [d' e'] eqn:Hrun. inversion H; subst.
      apply well_formed_config. split; [reflexivity|].
      exact (set_defaults_items_well_formed m _ _ _ Hd Hrun). }
  intros values defaults c Hinit.
  assert (well_formed c) as Hc.
  { unfold Config.__init__ in Hinit.
    assert (well_formed (VConfig [] [])) as H0
      by (apply well_formed_config; repeat split; constructor).
    destruct (Config.update (VConfig [] []) values) as [s1 [e|]] eqn:H1; [discriminate|].
    pose proof (proj1 (Hkeep _ values None H0) _ H1) as Hs1.
    destruct (Config.set_defaults s1 defaults) as [s2 [e|]] eqn:H2; [discriminate|].
    inversion Hinit; subst. exact (proj2 (Hkeep _ defaults None Hs1) _ H2). }
  split; [exact Hc|]. split; [now apply well_formed_plain|].
  intros m e. now apply Hkeep.
Qed.

Lemma constructor_builds_well_formed_witness :
  well_formed (VConfig [] [(KStr "_1337", VStr "x");
                           (KStr "A", VConfig [] [(KStr "ASCII", VInt 65)]);
                           (KStr "b", VInt 0)])
  /\ plain (VConfig [] [(KStr "_1337", VStr "x");
                        (KStr "A", VConfig [] [(KStr "ASCII", VInt 65)]);
                        (KStr "b", VInt 0)]) = true
  /\ forall m e,
       (forall c',
           Config.update (VConfig [] [(KStr "_1337", VStr "x");
                                      (KStr "A", VConfig [] [(KStr "ASCII", VInt 65)]);
                                      (KStr "b", VInt 0)]) m = (c', e) ->
           well_formed c')
       /\ (forall c',
              Config.set_defaults (VConfig [] [(KStr "_1337", VStr "x");
                                               (KStr "A", VConfig [] [(KStr "ASCII", VInt 65)]);
                                               (KStr "b", VInt 0)]) m = (c', e) ->
              well_formed c').
Proof.
  apply (constructor_builds_well_formed
           (VDict [(KInt 1337, VStr "x"); (KStr "A", VDict [(KStr "ASCII", VInt 65)])])
           (VDict [(KStr "b", VInt 0)])).
  reflexivity.
Defined.

(** ** Reading a field that is not there *)

(** Map-style reading fails with [KeyError], carrying the key as given,
    exactly when neither the key nor its identifier is in the mapping;
    member-style reading fails with [AttributeError], never [KeyError], and
    only when the name is no attribute of the object and map-style reading
    of it fails. *)
Theorem missing_field_errors :
  forall (a d : dict),
    (forall k e,
        Config.__getitem__ d k = Raise e <->
        e = KeyError k
        /\ Dict.get k d = None
        /\ Dict.get (KStr (identifier k)) d = None)
    /\ (forall name e,
           Config.getattr (VConfig a d) name = Raise e <->
           e = AttributeError name
           /\ Dict.get (KStr name) a = None
           /\ Config.class_attr name = None
           /\ Config.__getitem__ d (KStr name) = Raise (KeyError (KStr name))).
Proof.
  intros a d.
  assert (forall k e,
             Config.__getitem__ d k = Raise e <->
             e = KeyError k
             /\ Dict.get k d = None
             /\ Dict.get (KStr (identifier k)) d = None) as Hitem.
  { intros k e. unfold Config.__getitem__.
    destruct (Dict.get k d); [split; [discriminate | intros (_ & H & _); discriminate]|].
    destruct (Dict.get (KStr (identifier k)) d);
      [split; [discriminate | intros (_ & _ & H); discriminate]|].
    split; [intros H; inversion H; auto | intros (-> & _); reflexivity]. }
  split; [exact Hitem|].
  intros name e. cbn [Config.getattr].
  destruct (Dict.get (KStr name) a);
    [split; [discriminate | intros (_ & H & _); discriminate]|].
  destruct (Config.class_attr name);
    [split; [discriminate | intros (_ & _ & H & _); discriminate]|].
  unfold Config.__getattr__.
  destruct (Config.__getitem__ d (KStr name)) as [v|e'] eqn:E.
  - split; [discriminate | intros (_ & _ & _ & H); discriminate].
  - apply Hitem in E. destruct E as (-> & _ & _).
    split; [intros H; inversion H; auto | intros (-> & _); reflexivity].
Qed.

(** ** Composite checks *)

Lemma any_loop_app (rec : check -> outcome bool) (a b : list check) :
  Validate.any_loop rec (a ++ b)
  = match Validate.any_loop rec a with
    | Ok false => Validate.any_loop rec b
    | r => r
    end.
Proof.
  induction a as [|c a IH]; [reflexivity|].
  cbn [app Validate.any_loop]. destruct (rec c) as [[|]|e]; auto.
Qed.

Lemma all_loop_app (rec : check -> outcome bool) (a b : list check) :
  Validate.all_loop rec (a ++ b)
  = match Validate.all_loop rec a with
    | Ok true => Validate.all_loop rec b
    | r => r
    end.
Proof.
  induction a as [|c a IH]; [reflexivity|].
  cbn [app Validate.all_loop]. destruct (rec c) as [[|]|e]; auto.
Qed.

(** A list of checks inside a list of checks can be spliced into it, and a
    set inside a set likewise, with the same verdicts and the same
    exceptions. *)
Theorem nested_checks_flatten :
  forall (attr : value) (a b : list check),
    Validate._check attr (CList (CList a :: b)) = Validate._check attr (CList (a ++ b))
    /\ Validate._check attr (CSet (CSet a :: b)) = Validate._check attr (CSet (a ++ b)).
Proof.
  intros attr a b. split.
  - change (Validate._check attr (CList (a ++ b)))
      with (Validate.any_loop (Validate._check attr) (a ++ b)).
    rewrite any_loop_app.
    change (Validate._check attr (CList (CList a :: b)))
      with (match Validate.any_loop (Validate._check attr) a with
            | Ok true => Ok true
            | Ok false => Validate.any_loop (Validate._check attr) b
            | Raise e => Raise e
            end).
    now destruct (Validate.any_loop (Validate._check attr) a) as [[|]|e].
  - change (Validate._check attr (CSet (a ++ b)))
      with (Validate.all_loop (Validate._check attr) (a ++ b)).
    rewrite all_loop_app.
    change (Validate._check attr (CSet (CSet a :: b)))
      with (match Validate.all_loop (Validate._check attr) a with
            | Ok false => Ok false
            | Ok true => Validate.all_loop (Validate._check attr) b
            | Raise e => Raise e
            end).
    now destruct (Validate.all_loop (Validate._check attr) a) as [[|]|e].
Qed.

(** When every sub-check returns on the value, the verdict of a set, and of
    a list, does not depend on the order in which the sub-checks are
    tried. *)
Theorem check_order_is_irrelevant :
  forall (attr : value) (cs cs' : list check),
    Permutation cs cs' ->
    Forall (fun c => exists b, Validate._check attr c = Ok b) cs ->
    Validate._check attr (CSet cs) = Validate._check attr (CSet cs')
    /\ Validate._check attr (CList cs) = Validate._check attr (CList cs').
Proof.
  intros attr cs cs' Hp Htot.
  assert (Forall (fun c => exists b, Validate._check attr c = Ok b) cs') as Htot'.
  { rewrite Forall_forall in *. intros c Hin. apply Htot.
    apply (Permutation_in c (Permutation_sym Hp) Hin). }
  assert (forall P : check -> Prop, Exists P cs <-> Exists P cs') as Hex.
  { intros P. rewrite !Exists_exists. split; intros (c & Hin & Hc); exists c;
      (split; [|exact Hc]);
      [apply (Permutation_in c Hp Hin) | apply (Permutation_in c (Permutation_sym Hp) Hin)]. }
  split.
  - destruct (all_loop_total (Validate._check attr) cs Htot) as [H1 [b Hb]].
    destruct (all_loop_total (Validate._check attr) cs' Htot') as [H1' [b' Hb']].
    change (Validate.all_loop (Validate._check attr) cs
            = Validate.all_loop (Validate._check attr) cs').
    rewrite Hb, Hb'. rewrite Hb in H1. rewrite Hb' in H1'.
    destruct b, b'; try reflexivity.
    + assert (Ok true = Ok false :> outcome bool) as F
        by (apply H1, Hex, H1'; reflexivity). discriminate.
    + assert (Ok true = Ok false :> outcome bool) as F
        by (apply H1', Hex, H1; reflexivity). discriminate.
  - destruct (any_loop_total (Validate._check attr) cs Htot) as [H1 [b Hb]].
    destruct (any_loop_total (Validate._check attr) cs' Htot') as [H1' [b' Hb']].
    change (Validate.any_loop (Validate._check attr) cs
            = Validate.any_loop (Validate._check attr) cs').
    rewrite Hb, Hb'. rewrite Hb in H1. rewrite Hb' in H1'.
    destruct b, b'; try reflexivity.
    + assert (Ok false = Ok true :> outcome bool) as F
        by (apply H1', Hex, H1; reflexivity). discriminate.
    + assert (Ok false = Ok true :> outcome bool) as F
        by (apply H1, Hex, H1'; reflexivity). discriminate.
Qed.

Lemma check_order_is_irrelevant_witness :
  Validate._check (VStr "alpha") (CSet [CType TStr; CValue (SStr "beta")])
  = Validate._check (VStr "alpha") (CSet [CValue (SStr "beta"); CType TStr])
  /\ Validate._check (VStr "alpha") (CList [CType TStr; CValue (SStr "beta")])
     = Validate._check (VStr "alpha") (CList [CValue (SStr "beta"); CType TStr]).
Proof.
  apply check_order_is_irrelevant.
  - apply perm_swap.
  - repeat constructor; eexists; reflexivity.
Defined.

(** ** Reports and result *)




(** Validation only adds reports after the ones made before it, whatever
    its inputs and also when it raises. *)
Theorem reports_are_only_appended :
  forall (t : template) (self error_msgs : value) (path : string) (log : list report),
    exists tail,
      fst (Validate._follows_template t self error_msgs path log) = log ++ tail.
Proof.
  intros t self error_msgs path log.
  apply (follows_template_keeps_log t self error_msgs path).
Qed.

(** ** The general errors in the messages *)

Lemma string_app_assoc (a b c : string) : ((a ++ b) ++ c = a ++ b ++ c)%string.
Proof. induction a as [|x a IH]; simpl; [reflexivity | now rewrite IH]. Qed.

Lemma get_method_hit (a d : dict) (k : key) (x default : value) :
  Dict.get k d = Some x -> dict_get_method (VConfig a d) k default = Ok x.
Proof. intros H. unfold dict_get_method. cbn [items_of]. now rewrite H. Qed.

Lemma general_messages (gy : dict) (k : key) (missing : bool) (p body sf : string) :
  Dict.get (KStr "prefix") gy = Some (VStr p) ->
  Dict.get (KStr (if missing then "missing" else "invalid")) gy = Some (VStr body) ->
  Dict.get (KStr "suffix") gy = Some (VStr sf) ->
  Validate._get_error_msg k (VConfig [] [(KStr "_", VConfig [] gy)]) missing
  = Ok (VStr (p ++ body ++ sf)).
Proof.
  intros Hp Hb Hs.
  assert (Config.getattr (VConfig [] [(KStr "_", VConfig [] gy)]) "_"
          = Ok (VConfig [] gy)) as Hg by reflexivity.
  assert (Config.getattr (VConfig [] gy) "prefix" = Ok (VStr p)) as Hgp
    by (now apply getattr_plain).
  assert (Config.getattr (VConfig [] gy) "suffix" = Ok (VStr sf)) as Hgs
    by (now apply getattr_plain).
  unfold Validate._get_error_msg. rewrite Hg. cbn [bind].
  rewrite (get_method_hit [] gy _ _ VNone Hb). cbn [bind].
  unfold dict_get_method at 1. cbn [items_of Dict.get].
  destruct (key_eqb k (KStr "_")); cbn [bind is_config VStr].
  - rewrite Hgp, Hgs. cbn [bind].
    rewrite (get_method_hit [] gy _ _ _ Hp), (get_method_hit [] gy _ _ _ Hb),
      (get_method_hit [] gy _ _ _ Hs).
    cbn [bind py_add VStr]. now rewrite string_app_assoc.
  - rewrite Hgp, Hgs. cbn [bind py_add VStr]. now rewrite string_app_assoc.
Qed.

(** With no error messages of the caller's, or with a single text for
    them, the root of the validation works with the general errors of the
    class: every field gets the default prefix and suffix around [is
    missing], and around [is invalid] or the caller's text. *)
Theorem root_messages :
  forall (d : dict) (k : key) (s : string),
    (Validate._prepare_error_msgs (VConfig [] d) (VDict []) (VDict []) = Ok default_msgs
     /\ Validate._get_error_msg k default_msgs true = Ok (VStr "{path}.{name} is missing.")
     /\ Validate._get_error_msg k default_msgs false = Ok (VStr "{path}.{name} is invalid."))
    /\ exists msgs,
         Validate._prepare_error_msgs (VConfig [] d) (VStr s) (VDict []) = Ok msgs
         /\ Validate._get_error_msg k msgs true = Ok (VStr "{path}.{name} is missing.")
         /\ Validate._get_error_msg k msgs false
            = Ok (VStr ("{path}.{name} " ++ s ++ ".")).
Proof.
  intros d k s. split.
  - split; [reflexivity|]. split.
    + apply (general_messages Config.general_errors k true
               "{path}.{name} " "is missing" "."); reflexivity.
    + apply (general_messages Config.general_errors k false
               "{path}.{name} " "is invalid" "."); reflexivity.
  - exists (VConfig [] [(KStr "_",
              VConfig [] [(KStr "invalid", VStr s);
                          (KStr "prefix", VStr "{path}.{name} ");
                          (KStr "missing", VStr "is missing");
                          (KStr "suffix", VStr ".")])]).
    split; [reflexivity|]. split.
    + apply (general_messages _ k true "{path}.{name} " "is missing" "."); reflexivity.
    + apply (general_messages _ k false "{path}.{name} " s "."); reflexivity.
Qed.

Lemma prepare_without_override (d g : dict) :
  general g ->
  Validate._prepare_error_msgs (VConfig [] d) (VDict [])
    (VDict [(KStr "_", VConfig [] g)])
  = Ok (VConfig [] [(KStr "_", VConfig [] g)]).
Proof.
  intros Hg. pose proof Hg as (Hcan & _ & _).
  unfold Validate._prepare_error_msgs.
  cbn [bind Config.getattr Dict.get].
  change (Config.class_attr "general_errors") with (Some (VDict Config.general_errors)).
  cbn [bind]. rewrite (init_inner g Hg). cbn [bind].
  unfold Config.__init__, Config.update, Config.update_items.
  cbn [items_of Config.update_loop].
  unfold Config.set_defaults.
  rewrite (set_defaults_items_unfold (VConfig [] [(KStr "_", VConfig [] g)])
             [(KStr "_", VConfig [] g)] _ eq_refl).
  cbn [Config.set_defaults_loop is_str_or_int is_dict items_of].
  rewrite identifier_underscore.
  cbn [Dict.contains Dict.get negb].
  rewrite (build_of_canonical g Hcan).
  unfold Config.update_items.
  cbn [items_of Config.update_loop is_str_or_int is_dict].
  rewrite (build_of_canonical g Hcan), identifier_underscore.
  reflexivity.
Qed.

Lemma general_texts (g : dict) (missing : bool) :
  general g ->
  exists p body sf,
    Dict.get (KStr "prefix") g = Some (VStr p)
    /\ Dict.get (KStr (if missing then "missing" else "invalid")) g = Some (VStr body)
    /\ Dict.get (KStr "suffix") g = Some (VStr sf).
Proof.
  intros (_ & _ & Hfour).
  destruct (Hfour "prefix" eq_refl) as [p Hp].
  destruct (Hfour (if missing then "missing" else "invalid")
              ltac:(now destruct missing)) as [body Hb].
  destruct (Hfour "suffix" eq_refl) as [sf Hs].
  now exists p, body, sf.
Qed.

(** A nested field for which the error messages say nothing inherits the
    general errors of the enclosing node as they are: every message in the
    nested store is the enclosing prefix, text and suffix. *)
Theorem general_errors_are_inherited :
  forall (d g : dict) (k : key) (missing : bool),
    general g ->
    exists p body sf,
      Dict.get (KStr "prefix") g = Some (VStr p)
      /\ Dict.get (KStr (if missing then "missing" else "invalid")) g = Some (VStr body)
      /\ Dict.get (KStr "suffix") g = Some (VStr sf)
      /\ Validate._prepare_error_msgs (VConfig [] d) (VDict [])
           (VDict [(KStr "_", VConfig [] g)])
         = Ok (VConfig [] [(KStr "_", VConfig [] g)])
      /\ Validate._get_error_msg k (VConfig [] [(KStr "_", VConfig [] g)]) missing
         = Ok (VStr (p ++ body ++ sf)).
Proof.
  intros d g k missing Hg.
  destruct (general_texts g missing Hg) as (p & body & sf & Hp & Hb & Hs).
  exists p, body, sf. repeat split; try assumption.
  - now apply prepare_without_override.
  - now apply general_messages.
Qed.

Lemma general_errors_are_inherited_witness :
  exists p body sf,
    Dict.get (KStr "prefix") Config.general_errors = Some (VStr p)
    /\ Dict.get (KStr "missing") Config.general_errors = Some (VStr body)
    /\ Dict.get (KStr "suffix") Config.general_errors = Some (VStr sf)
    /\ Validate._prepare_error_msgs (VConfig [] []) (VDict [])
         (VDict [(KStr "_", VConfig [] Config.general_errors)])
       = Ok (VConfig [] [(KStr "_", VConfig [] Config.general_errors)])
    /\ Validate._get_error_msg (KStr "x")
         (VConfig [] [(KStr "_", VConfig [] Config.general_errors)]) true
       = Ok (VStr (p ++ body ++ sf)).
Proof.
  apply (general_errors_are_inherited [] Config.general_errors (KStr "x") true).
  exact general_errors_general.
Defined.

Lemma first_named_canonical (g : dict) (n : string) :
  normal_keys g -> first_named n g = Dict.get (KStr n) g.
Proof.
  induction 1 as [|[k v] g (s & Hs & Hn) _ IH]; [reflexivity|].
  cbn [fst] in Hs. subst k. cbn [first_named Dict.get key_eqb].
  rewrite (identifier_of_normal s Hn), (String.eqb_sym s n).
  now destruct (String.eqb n s).
Qed.

Lemma general_flat (g : dict) : general g -> flat g.
Proof.
  intros (Hcan & Hd & _). pose proof (general_entries g Hcan Hd) as H.
  unfold flat. rewrite Forall_forall in *. intros kv Hin.
  destruct (H kv Hin) as (s & m & -> & _). now split.
Qed.

(** A text given as the error messages of a nested field replaces the
    [invalid] text in the nested store and nothing else: prefix, suffix and
    the [missing] text stay those of the enclosing node. *)
Theorem nested_text_replaces_invalid_only :
  forall (d g : dict) (s : string) (k : key),
    general g ->
    exists child p miss sf,
      Dict.get (KStr "prefix") g = Some (VStr p)
      /\ Dict.get (KStr "missing") g = Some (VStr miss)
      /\ Dict.get (KStr "suffix") g = Some (VStr sf)
      /\ Validate._prepare_error_msgs (VConfig [] d) (VStr s)
           (VDict [(KStr "_", VConfig [] g)]) = Ok child
      /\ Validate._get_error_msg k child false = Ok (VStr (p ++ s ++ sf))
      /\ Validate._get_error_msg k child true = Ok (VStr (p ++ miss ++ sf)).
Proof.
  intros d g s k Hg. pose proof Hg as (Hcan & _ & _).
  destruct (general_texts g true Hg) as (p & miss & sf & Hp & Hm & Hs).
  destruct (flat_loop_lookup Config.set_defaults_items g (general_flat g Hg)
              [(KStr "invalid", VStr s)]) as (gy & Hrun & Hget).
  assert (forall n, Dict.get (KStr n) gy
                    = match Dict.get (KStr n) [(KStr "invalid", VStr s)] with
                      | Some y => Some y
                      | None => Dict.get (KStr n) g
                      end) as Hget'.
  { intros n. rewrite Hget. destruct Hcan as (_ & Hnk & _).
    now rewrite (first_named_canonical g n Hnk). }
  exists (VConfig [] [(KStr "_", VConfig [] gy)]), p, miss, sf.
  split; [exact Hp|]. split; [exact Hm|]. split; [exact Hs|]. split; [|split].
  - assert (match VStr s with
            | VScalar (SStr _) =>
                Config.__init__ (VDict [(KStr "_", VDict [(KStr "invalid", VStr s)])])
                  (VDict [])
            | _ => Ok (VStr s)
            end = Ok (VConfig [] [(KStr "_", VConfig [] [(KStr "invalid", VStr s)])]))
      as Hwrap by reflexivity.
    unfold Validate._prepare_error_msgs. rewrite Hwrap.
    cbn [bind Config.getattr Dict.get].
    change (Config.class_attr "general_errors") with (Some (VDict Config.general_errors)).
    cbn [bind]. rewrite (init_inner g Hg). cbn [bind].
    unfold Config.__init__, Config.update, Config.update_items.
    cbn [items_of Config.update_loop is_str_or_int is_dict].
    change (Config.build (VConfig [] [(KStr "invalid", VStr s)]))
      with (Ok (VConfig [] [(KStr "invalid", VStr s)])).
    rewrite identifier_underscore. cbn [Dict.set].
    unfold Config.set_defaults.
    rewrite (set_defaults_items_unfold (VConfig [] [(KStr "_", VConfig [] g)])
               [(KStr "_", VConfig [] g)] _ eq_refl).
    cbn [Config.set_defaults_loop is_str_or_int is_dict items_of].
    rewrite identifier_underscore.
    cbn [Dict.contains Dict.get key_eqb String.eqb Ascii.eqb Bool.eqb negb
         Config.__getitem__].
    rewrite (set_defaults_items_unfold (VConfig [] g) g _ eq_refl), Hrun.
    reflexivity.
  - apply general_messages.
    + now rewrite Hget'.
    + now rewrite Hget'.
    + now rewrite Hget'.
  - apply general_messages.
    + now rewrite Hget'.
    + now rewrite Hget'.
    + now rewrite Hget'.
Qed.

Lemma nested_text_replaces_invalid_only_witness :
  exists child p miss sf,
    Dict.get (KStr "prefix") Config.general_errors = Some (VStr p)
    /\ Dict.get (KStr "missing") Config.general_errors = Some (VStr miss)
    /\ Dict.get (KStr "suffix") Config.general_errors = Some (VStr sf)
    /\ Validate._prepare_error_msgs (VConfig [] []) (VStr "ain't valid")
         (VDict [(KStr "_", VConfig [] Config.general_errors)]) = Ok child
    /\ Validate._get_error_msg (KStr "ASCII") child false
       = Ok (VStr (p ++ "ain't valid" ++ sf))
    /\ Validate._get_error_msg (KStr "ASCII") child true = Ok (VStr (p ++ miss ++ sf)).
Proof.
  apply (nested_text_replaces_invalid_only [] Config.general_errors "ain't valid"
           (KStr "ASCII")).
  exact general_errors_general.
Defined.

(** ** The demonstration script *)

(** The script builds its configuration and its assertions hold: nested
    values read the same both ways, the assignment [cfg.B.ASCII = 0] is seen
    both ways, [cfg._1337] is [cfg['1337']], the defaults complete [b]
    without overriding [ASCII], and the configuration does not follow the
    template. *)
Example demo_assertions :
  Config.__init__ Demo.values Demo.defaults = Ok Demo.cfg
  /\ (a <- Config.getattr Demo.cfg "A" ;; Config.getattr a "ASCII") = Ok (VInt 65)
  /\ (a <- Config.getattr Demo.cfg_after_assignment "B" ;; Config.getattr a "ASCII")
     = Ok (VInt 0)
  /\ (match Demo.cfg_after_assignment with
      | VConfig _ d =>
          b <- Config.__getitem__ d (KStr "B") ;;
          match b with
          | VConfig _ db => Config.__getitem__ db (KStr "ASCII")
          | _ => Raise OperandError
          end
      | _ => Raise OperandError
      end) = Ok (VInt 0)
  /\ Config.getattr Demo.cfg "_1337" = Ok (VStr "1 M 50 1337")
  /\ (match Demo.cfg with
      | VConfig _ d => Config.__getitem__ d (KStr "1337")
      | _ => Raise OperandError
      end) = Ok (VStr "1 M 50 1337")
  /\ (b <- Config.getattr Demo.cfg "b" ;; Config.getattr b "case") = Ok (VStr "lower")
  /\ (b <- Config.getattr Demo.cfg "b" ;; Config.getattr b "ASCII") = Ok (VInt 89)
  /\ snd (Validate.follows_template Demo.cfg_after_assignment
            Demo.template Demo.error_messages) = Ok false.
Proof. repeat split; vm_compute; reflexivity. Qed.

(** What the script prints: one line for each field that fails. *)
Example demo_reports :
  map (fun r => (fst r, report_site r))
    (fst (Validate.follows_template Demo.cfg_after_assignment
            Demo.template Demo.error_messages))
  = [ ("{path}.{name} should be upper or lower.", ("a", Some (KStr "case")));
      ("{path}.{name} is not valid.", ("B", Some (KStr "ASCII")));
      ("{path}.{name} ain't valid.", ("b", Some (KStr "kind"))) ].
Proof. vm_compute. reflexivity. Qed.
